(** * dalee_cleanup: converting a folder of .webp images to numbered .png files

    A shallow embedding of [usefull/dalee_cleanup.py] and the proofs of its
    specification.  The script has two classes and a driver:

    - [ImageWriter] numbers its output files [001.png], [002.png], ... and
      starts after the images that are already in the output folder;
    - [ImageSource] lists the [.webp] files of a folder and hands out the
      decoded images one at a time, optionally removing each file it read;
    - [main] feeds every image of the source to the writer.

    The file system and the terminal are the state of the program: a finite
    map from path strings to nodes, and the list of printed lines.  Python
    exceptions are results of their own, and a computation that never
    returns has no result at all. *)

From Stdlib Require Import Strings.String Strings.Ascii.
From Stdlib Require Import Numbers.DecimalString Numbers.DecimalNat.
From stdpp Require Import gmap strings list fin_maps.

Open Scope string_scope.
Open Scope list_scope.
Open Scope nat_scope.

(* ===================================================================== *)
(** * Python strings *)
(* ===================================================================== *)

Module Str.

(** [s.startswith(c)] for a one-character [c]. *)
Definition startswith (c : ascii) (s : string) : bool :=
  match s with
  | EmptyString => false
  | String a _ => bool_decide (a = c)
  end.

(** [s.endswith(c)] for a one-character [c]. *)
Fixpoint endswith (c : ascii) (s : string) : bool :=
  match s with
  | EmptyString => false
  | String a EmptyString => bool_decide (a = c)
  | String _ s' => endswith c s'
  end.

(** [c in s]. *)
Fixpoint contains (c : ascii) (s : string) : bool :=
  match s with
  | EmptyString => false
  | String a s' => bool_decide (a = c) || contains c s'
  end.

(** [s.split(sep)] for a one-character separator: the pieces between the
    separators, left to right; a string without separator is its only piece
    and the empty string splits into one empty piece. *)
Fixpoint split (sep : ascii) (s : string) : list string :=
  match s with
  | EmptyString => [EmptyString]
  | String a s' =>
      if bool_decide (a = sep) then EmptyString :: split sep s'
      else match split sep s' with
           | piece :: pieces => String a piece :: pieces
           | [] => [String a EmptyString]
           end
  end.

(** [s.removeprefix(pre)] when [s] starts with [pre], nothing otherwise. *)
Fixpoint strip_prefix (pre s : string) : option string :=
  match pre, s with
  | EmptyString, _ => Some s
  | String a pre', String b s' =>
      if bool_decide (a = b) then strip_prefix pre' s' else None
  | String _ _, EmptyString => None
  end.

(** [str(n)] for a natural number. *)
Definition of_nat (n : nat) : string :=
  NilEmpty.string_of_uint (Nat.to_uint n).

(** [int(s)] for a string of decimal digits. *)
Definition to_nat (s : string) : option nat :=
  Nat.of_uint <$> NilEmpty.uint_of_string s.

(** ['0' * k]. *)
Fixpoint zeros (k : nat) : string :=
  match k with
  | O => EmptyString
  | S k' => String "0" (zeros k')
  end.

(** ['{:03d}'.format(n)]: the decimal digits of [n], filled with zeros on
    the left up to a width of three characters. *)
Definition format_03d (n : nat) : string :=
  let digits := of_nat n in
  zeros (3 - String.length digits) +:+ digits.

End Str.

(* ===================================================================== *)
(** * os.path *)
(* ===================================================================== *)

Module Path.

Definition sep : ascii := "/"%char.

(** [os.path.join(a, b)] of posixpath: an absolute [b] replaces [a]; an
    empty [a] or one that ends with the separator is extended by [b];
    otherwise the separator goes in between. *)
Definition join (a b : string) : string :=
  if Str.startswith sep b then b
  else if bool_decide (a = EmptyString) || Str.endswith sep a then a +:+ b
  else a +:+ String sep b.

(** [p.rstrip('/')]: the path without the separators at its end. *)
Fixpoint rstrip_sep (p : string) : string :=
  match p with
  | EmptyString => EmptyString
  | String a p' =>
      match rstrip_sep p' with
      | EmptyString => if bool_decide (a = sep) then EmptyString
                       else String a EmptyString
      | rest => String a rest
      end
  end.

(** The folder a path lies in: what stands before its last separator;
    nothing for a path without separator, which lies in the current
    directory. *)
Fixpoint folder_of (p : string) : option string :=
  match p with
  | EmptyString => None
  | String a p' =>
      match folder_of p' with
      | Some q => Some (String a q)
      | None => if bool_decide (a = sep) then Some EmptyString else None
      end
  end.

End Path.

(* ===================================================================== *)
(** * Results of Python code *)
(* ===================================================================== *)

(** The exceptions the script can meet.  [OSError] is the one the script
    raises itself, with its message; the others come from the interpreter,
    [os] and the image library. *)
Inductive exn : Type :=
  | OSError (msg : string)
  | FileNotFoundError
  | FileExistsError
  | NotADirectoryError
  | IsADirectoryError
  | UnidentifiedImageError
  | IndexError
  | StopIteration.

(** A call returns a value or raises. *)
Inductive res (A : Type) : Type :=
  | Ret (a : A)
  | Exc (e : exn).
Arguments Ret {A} a.
Arguments Exc {A} e.

#[export] Instance exn_eq_dec : EqDecision exn.
Proof. solve_decision. Defined.

(* ===================================================================== *)
(** * Images, the disk and the terminal *)
(* ===================================================================== *)

(** PIL images: the pixel mode and the picture, which the script never looks
    into. *)
Inductive Mode : Type := RGB | RGBA | L | P.

Record Image : Type := mkImage { mode : Mode; pixels : nat }.

(** [image.convert('RGB')]. *)
Definition convert_RGB (image : Image) : Image :=
  {| mode := RGB; pixels := pixels image |}.

(** A path names a directory or a file; a file holds an encoded image or
    bytes that are no image. *)
Inductive node : Type :=
  | File (content : option Image)
  | Dir.

#[export] Instance Mode_eq_dec : EqDecision Mode.
Proof. solve_decision. Defined.
#[export] Instance Image_eq_dec : EqDecision Image.
Proof. solve_decision. Defined.
#[export] Instance node_eq_dec : EqDecision node.
Proof. solve_decision. Defined.

(** The state of a run: the disk, keyed by the path strings the script
    builds, and the lines printed so far.  Two different strings are two
    different paths: links and other spellings of one path are left out.  Of
    the ways the system calls can fail, the ones that depend on what is at
    the path and at its folder are kept (no such file or folder, a directory
    where a file is expected and the reverse, bytes that are no image); a
    full disk or missing permissions are not. *)
Record World : Type := mkWorld {
  disk : gmap string node;
  stdout : list string
}.

(** What [os.scandir] yields for a directory entry. *)
Record DirEntry : Type := mkDirEntry { name : string; path : string }.

Module os.

(** [os.path.exists(p)]. *)
Definition path_exists (d : gmap string node) (p : string) : bool :=
  bool_decide (is_Some (d !! p)).

(** [os.path.isdir(p)]. *)
Definition path_isdir (d : gmap string node) (p : string) : bool :=
  match d !! p with
  | Some Dir => true
  | _ => false
  end.

(** The prefix every path below directory [p] starts with. *)
Definition dir_prefix (p : string) : string :=
  if bool_decide (p = EmptyString) || Str.endswith Path.sep p then p
  else p +:+ String Path.sep EmptyString.

(** The name under which path [k] is listed in directory [p]: what follows
    the directory's prefix, when that is one non-empty path component. *)
Definition child_name (p k : string) : option string :=
  match Str.strip_prefix (dir_prefix p) k with
  | Some nm =>
      if bool_decide (nm = EmptyString) || Str.contains Path.sep nm then None
      else Some nm
  | None => None
  end.

(** The entries of directory [p], in the order the disk lists them;
    [entry.path] is [os.path.join(p, entry.name)]. *)
Definition entries (d : gmap string node) (p : string) : list DirEntry :=
  omap (λ kn, (λ nm, mkDirEntry nm (Path.join p nm)) <$> child_name p kn.1)
       (map_to_list d).

(** Whether something can be made at path [p]: the empty path names
    nothing; a path without separator lies in the current directory and a
    path right below the root, [.] or [..] in one of these, which are
    there; any other path needs its folder to be a directory of the disk,
    looked up as the path spells it, without or with the separator at its
    end. *)
Definition check_folder (d : gmap string node) (p : string) : res unit :=
  if bool_decide (p = EmptyString) then Exc FileNotFoundError
  else match Path.folder_of p with
       | None => Ret tt
       | Some q =>
           if bool_decide (q = EmptyString ∨ q = "." ∨ q = "..") then Ret tt
           else match d !! q with
                | Some Dir => Ret tt
                | Some (File _) => Exc NotADirectoryError
                | None =>
                    match d !! (q +:+ String Path.sep EmptyString) with
                    | Some Dir => Ret tt
                    | Some (File _) => Exc NotADirectoryError
                    | None => Exc FileNotFoundError
                    end
                end
       end.

(** Whether a file can be written at path [p]: not over a directory, and
    only in a folder that is there. *)
Definition check_writable (d : gmap string node) (p : string) : res unit :=
  match d !! p with
  | Some Dir => Exc IsADirectoryError
  | _ => check_folder d p
  end.

(** Whether a directory can be made at path [p]: not where something is,
    the root included, and only in a folder that is there.  The separators
    at the end of [p] do not count for its folder. *)
Definition check_mkdir (d : gmap string node) (p : string) : res unit :=
  match d !! p with
  | Some _ => Exc FileExistsError
  | None =>
      if bool_decide (Path.rstrip_sep p = EmptyString)
         && negb (bool_decide (p = EmptyString))
      then Exc FileExistsError
      else check_folder d (Path.rstrip_sep p)
  end.

(** [os.scandir(p)]. *)
Definition scandir (d : gmap string node) (p : string) : res (list DirEntry) :=
  match d !! p with
  | Some Dir => Ret (entries d p)
  | Some (File _) => Exc NotADirectoryError
  | None => Exc FileNotFoundError
  end.

End os.

(* ===================================================================== *)
(** * Computations *)
(* ===================================================================== *)

(** A piece of the script run from a world: it returns or raises, and leaves
    a world behind in both cases; [None] when it never comes back. *)
Definition Comp (A : Type) : Type := World → option (res A * World).

#[export] Instance Comp_ret : MRet Comp := λ A a w, Some (Ret a, w).

#[export] Instance Comp_bind : MBind Comp := λ A B k c w,
  match c w with
  | Some (Ret a, w') => k a w'
  | Some (Exc e, w') => Some (Exc e, w')
  | None => None
  end.

Definition raise {A} (e : exn) : Comp A := λ w, Some (Exc e, w).

(** [try: body  except IndexError: handler]. *)
Definition try_except_IndexError {A} (body handler : Comp A) : Comp A :=
  λ w, match body w with
       | Some (Exc IndexError, w') => handler w'
       | r => r
       end.

(** A call whose outcome depends on the disk alone. *)
Definition lift_res {A} (f : gmap string node → res A) : Comp A :=
  λ w, Some (f (disk w), w).

(** [print(line)]. *)
Definition print (line : string) : Comp unit :=
  λ w, Some (Ret tt, {| disk := disk w; stdout := stdout w ++ [line] |}).

(** [os.path.exists(p)] as a step of the script. *)
Definition exists_ (p : string) : Comp bool :=
  λ w, Some (Ret (os.path_exists (disk w) p), w).

(** [os.mkdir(p)]: a new, empty directory. *)
Definition mkdir (p : string) : Comp unit :=
  λ w, match os.check_mkdir (disk w) p with
       | Exc e => Some (Exc e, w)
       | Ret _ =>
           Some (Ret tt, {| disk := <[p := Dir]> (disk w);
                            stdout := stdout w |})
       end.

(** [os.remove(p)]: removes a file. *)
Definition remove (p : string) : Comp unit :=
  λ w, match disk w !! p with
       | Some (File _) =>
           Some (Ret tt, {| disk := delete p (disk w); stdout := stdout w |})
       | Some Dir => Some (Exc IsADirectoryError, w)
       | None => Some (Exc FileNotFoundError, w)
       end.

(** [Image.open(p)]: the image the file holds. *)
Definition Image_open (d : gmap string node) (p : string) : res Image :=
  match d !! p with
  | Some (File (Some image)) => Ret image
  | Some (File None) => Exc UnidentifiedImageError
  | Some Dir => Exc IsADirectoryError
  | None => Exc FileNotFoundError
  end.

(** [image.save(p, 'png')]: the file at [p] now holds the image, whatever it
    held before; it raises when [p] is a directory or the folder of [p] is
    not there. *)
Definition Image_save (image : Image) (p : string) : Comp unit :=
  λ w, match os.check_writable (disk w) p with
       | Exc e => Some (Exc e, w)
       | Ret _ => Some (Ret tt, {| disk := <[p := File (Some image)]> (disk w);
                                   stdout := stdout w |})
       end.

(* ===================================================================== *)
(** * class ImageWriter *)
(* ===================================================================== *)

Module ImageWriter.

Record t : Type := mk { _output_path : string; _image_count : nat }.

Definition _IMAGE_FILENAME_FORMAT (n : nat) : string :=
  Str.format_03d n +:+ ".png".

(** [_build_image_path]: the path of the next image. *)
Definition _build_image_path (self : t) : string :=
  Path.join (_output_path self) (_IMAGE_FILENAME_FORMAT (_image_count self)).

(** [while os.path.exists(self._build_image_path()): self._image_count += 1]
    run for at most [fuel] tests of the condition. *)
Fixpoint count_existing (fuel : nat) (d : gmap string node) (self : t) : option t :=
  match fuel with
  | O => None
  | S fuel' =>
      if os.path_exists d (_build_image_path self)
      then count_existing fuel' d
             {| _output_path := _output_path self;
                _image_count := _image_count self + 1 |}
      else Some self
  end.

(** [ImageWriter(output_path)].  The loop gets one test more than the disk
    has paths, which is enough for it to end ([count_existing_total]). *)
Definition __init__ (output_path : string) : Comp t :=
  present ← exists_ output_path ;
  ((if negb present
    then print ("Path " +:+ output_path +:+ " do not exists. Created path.");;
         mkdir output_path
    else mret tt) : Comp unit);;
  ((λ w, match count_existing (S (size (disk w))) (disk w)
                 {| _output_path := output_path; _image_count := 1 |} with
         | Some self =>
             (print ("Initial image count is "
                     +:+ Str.of_nat (_image_count self - 1) +:+ ".");;
              mret self) w
         | None => None
         end) : Comp t).

(** [write_image(image)]; the writer with its counter advanced is the
    result. *)
Definition write_image (self : t) (image : Image) : Comp t :=
  let image_path := _build_image_path self in
  Image_save image image_path;;
  print ("Saved image at " +:+ image_path);;
  mret {| _output_path := _output_path self;
         _image_count := _image_count self + 1 |}.

End ImageWriter.

(* ===================================================================== *)
(** * class ImageSource *)
(* ===================================================================== *)

(** [l[-1]]. *)
Definition index_last {A} (l : list A) : res A :=
  match last l with
  | Some x => Ret x
  | None => Exc IndexError
  end.

(** [l.pop()]: the last item and the list without it. *)
Definition pop {A} (l : list A) : res (A * list A) :=
  match last l with
  | Some x => Ret (x, removelast l)
  | None => Exc IndexError
  end.

Module ImageSource.

Record t : Type := mk { _source_list : list string; _destructive : bool }.

(** [recursive and not file.name[0] == '.']; the name is looked at only
    when [recursive] holds. *)
Definition enter_directory (recursive : bool) (file : DirEntry) : res bool :=
  if recursive then
    match name file with
    | EmptyString => Exc IndexError
    | String a _ => Ret (negb (bool_decide (a = "."%char)))
    end
  else Ret false.

(** [file.name.split('.')[-1] == 'webp']. *)
Definition is_input_image (file : DirEntry) : res bool :=
  match index_last (Str.split "." (name file)) with
  | Ret extension => Ret (bool_decide (extension = "webp"))
  | Exc e => Exc e
  end.

(** The [for file in os.scandir(source_path)] loop of
    [_generate_source_list] over the entries still to visit; [self_call] is
    the function itself, for the call in the loop's body. *)
Fixpoint scan_entries (self_call : string → bool → option (res (list string)))
    (d : gmap string node) (source_path : string) (recursive : bool)
    (files : list DirEntry) (input_list : list string)
  : option (res (list string)) :=
  match files with
  | [] => Some (Ret input_list)
  | file :: files' =>
      if os.path_isdir d (path file) then
        match enter_directory recursive file with
        | Exc e => Some (Exc e)
        | Ret true =>
            match self_call source_path recursive with
            | Some (Ret found) =>
                scan_entries self_call d source_path recursive files'
                             (input_list ++ found)
            | Some (Exc e) => Some (Exc e)
            | None => None
            end
        | Ret false =>
            scan_entries self_call d source_path recursive files' input_list
        end
      else
        match is_input_image file with
        | Exc e => Some (Exc e)
        | Ret true =>
            scan_entries self_call d source_path recursive files'
                         (input_list ++ [path file])
        | Ret false =>
            scan_entries self_call d source_path recursive files' input_list
        end
  end.

(** [_generate_source_list(source_path, recursive)] with at most [depth]
    calls nested in one another; [None] when that many do not reach the
    end. *)
Fixpoint _generate_source_list (depth : nat) (d : gmap string node)
    (source_path : string) (recursive : bool) : option (res (list string)) :=
  match depth with
  | O => None
  | S depth' =>
      match os.scandir d source_path with
      | Exc e => Some (Exc e)
      | Ret files =>
          scan_entries (_generate_source_list depth' d)
                       d source_path recursive files []
      end
  end.

(** [ImageSource(source_path, destructive, recursive)]. *)
Definition __init__ (depth : nat) (source_path : string)
    (destructive recursive : bool) : Comp t :=
  present ← exists_ source_path;
  if negb present
  then raise (OSError ("Source path " +:+ source_path +:+ " do not exist."))
  else
    source_list ← ((λ w,
      match _generate_source_list depth (disk w) source_path recursive with
      | Some r => Some (r, w)
      | None => None
      end) : Comp (list string));
    print ("Found " +:+ Str.of_nat (length source_list) +:+ " input images.");;
    mret {| _source_list := source_list; _destructive := destructive |}.

(** [__next__]: the next image, and the source without the path it took.
    The whole body is inside the [try]; only [IndexError], which the empty
    list's [pop] raises, becomes [StopIteration].  When the call raises, the
    list has lost its last path all the same; nothing in the script uses a
    source after it raised, and the result then carries no source. *)
Definition __next__ (self : t) : Comp (Image * t) :=
  try_except_IndexError
    ('(path, rest) ← lift_res (λ _, pop (_source_list self));
     img ← lift_res (λ d, match Image_open d path with
                          | Ret image => Ret (convert_RGB image)
                          | Exc e => Exc e
                          end);
     ((if _destructive self then remove path else mret tt) : Comp unit);;
     mret (img, {| _source_list := rest;
                   _destructive := _destructive self |}))
    (raise StopIteration).

End ImageSource.

(* ===================================================================== *)
(** * main *)
(* ===================================================================== *)

(** The parsed command line. *)
Record Namespace : Type := mkNamespace {
  source_path : string;
  output_path : string;
  recursive : bool;
  destructive : bool
}.

(** [for image in sources: writer.write_image(image)], for at most [fuel]
    calls of [__next__]. *)
Fixpoint for_image_in (fuel : nat) (sources : ImageSource.t)
    (writer : ImageWriter.t) : Comp unit :=
  match fuel with
  | O => λ _, None
  | S fuel' => λ w,
      match ImageSource.__next__ sources w with
      | Some (Ret (image, sources'), w') =>
          (writer' ← ImageWriter.write_image writer image;
           for_image_in fuel' sources' writer') w'
      | Some (Exc StopIteration, w') => Some (Ret tt, w')
      | Some (Exc e, w') => Some (Exc e, w')
      | None => None
      end
  end.

(** [main(args)]; [depth] bounds the nesting of [_generate_source_list].
    The loop gets one call of [__next__] more than there are sources, the
    one that ends it. *)
Definition main (depth : nat) (args : Namespace) : Comp unit :=
  sources ← ImageSource.__init__ depth (source_path args)
                                 (destructive args) (recursive args);
  writer ← ImageWriter.__init__ (output_path args);
  for_image_in (S (length (ImageSource._source_list sources))) sources writer.
(* ===================================================================== *)
(** * A writer at work *)
(* ===================================================================== *)

(** [for image in images: writer.write_image(image)], noting before each
    call the path the writer is about to save at. *)
Fixpoint write_all (writer : ImageWriter.t) (images : list Image)
  : Comp (list string) :=
  match images with
  | [] => mret []
  | image :: images' =>
      let target := ImageWriter._build_image_path writer in
      writer' ← ImageWriter.write_image writer image;
      targets ← write_all writer' images';
      mret (target :: targets)
  end.

(** The life of one writer: made for [output_path], then given the images
    one after the other.  The result lists the paths of its calls of
    [write_image], in order. *)
Definition writer_session (output_path : string) (images : list Image)
  : Comp (list string) :=
  writer ← ImageWriter.__init__ output_path;
  write_all writer images.

(** The path of image number [i] in folder [out]. *)
Definition slot (out : string) (i : nat) : string :=
  Path.join out (Str.format_03d i +:+ ".png").

(* ===================================================================== *)
(** * Words for the statements *)
(* ===================================================================== *)

(** The directories the scan calls itself for, and the files it lists. *)
Definition enterable (d : gmap string node) (recursive : bool) (file : DirEntry) : bool :=
  recursive && os.path_isdir d (path file)
  && negb (Str.startswith "." (name file)).

Definition listed (d : gmap string node) (file : DirEntry) : bool :=
  negb (os.path_isdir d (path file))
  && bool_decide (last (Str.split "." (name file)) = Some "webp").

(** The world [ImageWriter(out)] starts counting in: with the folder made
    and reported when it was missing. *)
Definition after_mkdir (out : string) (w : World) : World :=
  if os.path_exists (disk w) out then w
  else {| disk := <[out := Dir]> (disk w);
          stdout := stdout w
                    ++ ["Path " +:+ out +:+ " do not exists. Created path."] |}.

(** Whether [ImageWriter(out)] finds its folder or can make it. *)
Definition folder_at_hand (out : string) (w : World) : Prop :=
  os.path_exists (disk w) out = true
  ∨ os.check_mkdir (disk w) out = Ret tt.

(** The last character of a string. *)
Fixpoint last_char (s : string) : option ascii :=
  match s with
  | EmptyString => None
  | String a EmptyString => Some a
  | String _ s' => last_char s'
  end.

(* ===================================================================== *)
(** * Folders to run the script on *)
(* ===================================================================== *)

Definition picture (n : nat) : Image := {| mode := RGBA; pixels := n |}.

(** A source folder with an image and a subfolder with an image of its
    own. *)
Definition disk_nested : gmap string node :=
  list_to_map [("src", Dir); ("src/top.webp", File (Some (picture 1)));
               ("src/sub", Dir); ("src/sub/a.webp", File (Some (picture 2)))].

(** Files whose names nearly end in [webp], and one that does. *)
Definition disk_extensions : gmap string node :=
  list_to_map [("src", Dir); ("src/x.WEBP", File (Some (picture 1)));
               ("src/x.webp.bak", File (Some (picture 2)));
               ("src/y.webp", File (Some (picture 3)))].

(** A file called [webp], without any dot. *)
Definition disk_bare_webp : gmap string node :=
  list_to_map [("src", Dir); ("src/webp", File (Some (picture 1)))].

(** An output folder where [001.png] and [003.png] are there and [002.png]
    is not. *)
Definition world_gap : World :=
  {| disk := list_to_map [("out", Dir);
                          ("out/001.png", File (Some (picture 1)));
                          ("out/003.png", File (Some (picture 3)))];
     stdout := [] |}.

(** An output folder with [001.png] and [002.png]. *)
Definition world_two : World :=
  {| disk := list_to_map [("out", Dir);
                          ("out/001.png", File (Some (picture 1)));
                          ("out/002.png", File (Some (picture 2)))];
     stdout := [] |}.

(** The folders of the example run: two images and a text file in [src],
    nothing in [out]. *)
Definition world_scenario : World :=
  {| disk := list_to_map [("src", Dir);
                          ("src/a.webp", File (Some (picture 1)));
                          ("src/b.webp", File (Some (picture 2)));
                          ("src/readme.txt", File None);
                          ("out", Dir)];
     stdout := [] |}.

Definition scenario_args : Namespace :=
  {| source_path := "src"; output_path := "out";
     recursive := false; destructive := false |}.

(** The same folders once the run is over. *)
Definition world_scenario_end : World :=
  {| disk := list_to_map [("src", Dir);
                          ("src/a.webp", File (Some (picture 1)));
                          ("src/b.webp", File (Some (picture 2)));
                          ("src/readme.txt", File None);
                          ("out", Dir);
                          ("out/001.png", File (Some (convert_RGB (picture 2))));
                          ("out/002.png", File (Some (convert_RGB (picture 1))))];
     stdout := ["Found 2 input images."; "Initial image count is 0.";
                "Saved image at out/001.png"; "Saved image at out/002.png"] |}.

(** An output folder with one image, a source folder with one. *)
Definition world_resume : World :=
  {| disk := list_to_map [("src", Dir);
                          ("src/new.webp", File (Some (picture 5)));
                          ("out", Dir);
                          ("out/001.png", File (Some (picture 1)))];
     stdout := [] |}.

Definition resume_args : Namespace :=
  {| source_path := "src"; output_path := "out";
     recursive := false; destructive := true |}.

(** A source folder with a file that is no image. *)
Definition world_broken : World :=
  {| disk := list_to_map [("src", Dir); ("src/bad.webp", File None);
                          ("src/good.webp", File (Some (picture 4)))];
     stdout := [] |}.

(** [world_resume] after a destructive run. *)
Definition world_resume_end : World :=
  {| disk := list_to_map [("src", Dir);
                          ("out", Dir);
                          ("out/001.png", File (Some (picture 1)));
                          ("out/002.png", File (Some (convert_RGB (picture 5))))];
     stdout := ["Found 1 input images."; "Initial image count is 1.";
                "Saved image at out/002.png"] |}.

(* ===================================================================== *)
(** * A source drained *)
(* ===================================================================== *)

(** [ImageSource.__iter__]: the source is its own iterator. *)
Definition ImageSource__iter__ (self : ImageSource.t) : ImageSource.t := self.

(** [list(sources)]: the images of all pulls up to [StopIteration], for at
    most [fuel] calls of [__next__]. *)
Fixpoint pull_all (fuel : nat) (sources : ImageSource.t) : Comp (list Image) :=
  match fuel with
  | O => λ _, None
  | S fuel' => λ w,
      match ImageSource.__next__ (ImageSource__iter__ sources) w with
      | Some (Ret (image, sources'), w') =>
          (images ← pull_all fuel' sources'; mret (image :: images)) w'
      | Some (Exc StopIteration, w') => Some (Ret [], w')
      | Some (Exc e, w') => Some (Exc e, w')
      | None => None
      end
  end.

(** A source folder with a hidden subfolder. *)
Definition disk_hidden : gmap string node :=
  list_to_map [("src", Dir); ("src/a.webp", File (Some (picture 1)));
               ("src/.cache", Dir);
               ("src/.cache/old.webp", File (Some (picture 2)))].

(** Source and output in one folder. *)
Definition world_same_folder : World :=
  {| disk := list_to_map [("pics", Dir);
                          ("pics/a.webp", File (Some (picture 1)));
                          ("pics/001.png", File (Some (picture 9)))];
     stdout := [] |}.

(** An output folder where the second slot is taken by a directory. *)
Definition world_blocked : World :=
  {| disk := list_to_map [("src", Dir);
                          ("src/a.webp", File (Some (picture 1)));
                          ("src/b.webp", File (Some (picture 2)));
                          ("out", Dir);
                          ("out/002.png", Dir)];
     stdout := [] |}.

(* ===================================================================== *)
(** * The string functions on examples *)
(* ===================================================================== *)

Example join_plain : Path.join "out" "001.png" = "out/001.png".
Proof. reflexivity. Qed.

Example join_slash : Path.join "out/" "001.png" = "out/001.png".
Proof. reflexivity. Qed.

Example join_absolute : Path.join "out" "/tmp/x" = "/tmp/x".
Proof. reflexivity. Qed.

Example split_two : Str.split "." "x.webp.bak" = ["x"; "webp"; "bak"].
Proof. reflexivity. Qed.

Example split_none : Str.split "." "webp" = ["webp"].
Proof. reflexivity. Qed.

Example split_edges : Str.split "." ".a." = [""; "a"; ""].
Proof. reflexivity. Qed.

Example format_7 : Str.format_03d 7 = "007".
Proof. reflexivity. Qed.

Example format_42 : Str.format_03d 42 = "042".
Proof. reflexivity. Qed.

Example format_1000 : Str.format_03d 1000 = "1000".
Proof. reflexivity. Qed.
(* ===================================================================== *)
(** * Strings: splitting, prefixes, decimal numbers *)
(* ===================================================================== *)

Section string_facts.
Implicit Types (s pre x : string) (c a : ascii).

Lemma append_cons a s1 s2 : String a s1 +:+ s2 = String a (s1 +:+ s2).
Proof. reflexivity. Qed.

Lemma append_nil_l s : "" +:+ s = s.
Proof. reflexivity. Qed.

Lemma append_assoc s1 s2 s3 : (s1 +:+ s2) +:+ s3 = s1 +:+ (s2 +:+ s3).
Proof.
  induction s1 as [|a s1 IH]; [done |]. by rewrite !append_cons, IH.
Qed.

Lemma append_nil_r s : s +:+ "" = s.
Proof. induction s as [|a s IH]; [done |]. by rewrite append_cons, IH. Qed.

Lemma append_length s1 s2 :
  String.length (s1 +:+ s2) = String.length s1 + String.length s2.
Proof.
  induction s1 as [|a s1 IH]; [done |]. rewrite append_cons. simpl. by rewrite IH.
Qed.

Lemma split_nonempty c s : Str.split c s ≠ [].
Proof.
  destruct s as [|a s]; simpl; [done |].
  case_bool_decide; [done |]. by destruct (Str.split c s).
Qed.

(** A string without the separator is its own single piece. *)
Lemma split_no_sep c x : Str.contains c x = false → Str.split c x = [x].
Proof.
  induction x as [|a x IH]; simpl; [done |].
  intros [Ha Hx]%orb_false_iff. rewrite Ha, (IH Hx). done.
Qed.

(** Splitting distributes over a separator in the middle. *)
Lemma split_app_sep c pre x :
  Str.split c (pre +:+ String c x) = Str.split c pre ++ Str.split c x.
Proof.
  induction pre as [|a pre IH].
  - rewrite append_nil_l. simpl. by rewrite bool_decide_eq_true_2.
  - rewrite append_cons. simpl. rewrite IH. case_bool_decide; [done |].
    pose proof (split_nonempty c pre). by destruct (Str.split c pre).
Qed.

(** Every string ends in a piece without separator: the string itself, or
    what follows its last separator. *)
Lemma final_segment_exists c s :
  ∃ x, Str.contains c x = false ∧ (s = x ∨ ∃ pre, s = pre +:+ String c x).
Proof.
  induction s as [|a s (x & Hx & IH)].
  - exists "". auto.
  - destruct IH as [-> | [pre ->]].
    + destruct (decide (a = c)) as [-> | Hne].
      * exists x. split; [done |]. right. by exists "".
      * exists (String a x). split; [| by left].
        simpl. by rewrite bool_decide_eq_false_2.
    + exists x. split; [done |]. right. by exists (String a pre).
Qed.

Lemma split_last_of_segment c s x :
  Str.contains c x = false →
  (s = x ∨ ∃ pre, s = pre +:+ String c x) →
  last (Str.split c s) = Some x.
Proof.
  intros Hx [-> | [pre ->]].
  - by rewrite split_no_sep.
  - by rewrite split_app_sep, (split_no_sep c x), last_snoc.
Qed.

(** [s.split(c)[-1]] is the final segment of [s]. *)
Lemma split_last_iff c s x :
  last (Str.split c s) = Some x ↔
  Str.contains c x = false ∧ (s = x ∨ ∃ pre, s = pre +:+ String c x).
Proof.
  split.
  - intros Hlast. destruct (final_segment_exists c s) as (y & Hy & Hs).
    rewrite (split_last_of_segment c s y Hy Hs) in Hlast.
    by injection Hlast as <-.
  - intros [Hx Hs]. by apply split_last_of_segment.
Qed.

Lemma index_last_split c s : ∃ x, index_last (Str.split c s) = Ret x.
Proof.
  unfold index_last. destruct (last (Str.split c s)) as [x|] eqn:E; [eauto |].
  apply last_None in E. by apply split_nonempty in E.
Qed.

Lemma strip_prefix_Some pre s r :
  Str.strip_prefix pre s = Some r ↔ s = pre +:+ r.
Proof.
  revert s. induction pre as [|a pre IH]; intros s; simpl.
  - rewrite append_nil_l. split; [by intros [= ->] | by intros ->].
  - rewrite append_cons. destruct s as [|b s]; [done |].
    case_bool_decide as Hab.
    + subst b. rewrite IH. split; [by intros -> | by intros [= ->]].
    + split; [done | intros [= ? ?]; done].
Qed.

Lemma startswith_contains c x :
  Str.contains c x = false → Str.startswith c x = false.
Proof. destruct x as [|a x]; simpl; [done | by intros [? ?]%orb_false_iff]. Qed.

(** Decimal digits read back give the number, also behind zeros. *)
Lemma to_nat_of_nat n : Str.to_nat (Str.of_nat n) = Some n.
Proof.
  unfold Str.to_nat, Str.of_nat.
  rewrite NilEmpty.usu. simpl. by rewrite DecimalNat.Unsigned.of_to.
Qed.

Lemma to_nat_zeros k s n :
  Str.to_nat s = Some n → Str.to_nat (Str.zeros k +:+ s) = Some n.
Proof.
  intros Hs. induction k as [|k IH]; [done |].
  simpl Str.zeros. rewrite append_cons.
  unfold Str.to_nat in *. simpl.
  destruct (NilEmpty.uint_of_string (Str.zeros k +:+ s)) as [u|]; [| done].
  simpl in *. injection IH as <-. done.
Qed.

Lemma to_nat_format_03d n : Str.to_nat (Str.format_03d n) = Some n.
Proof. apply to_nat_zeros, to_nat_of_nat. Qed.

Lemma format_03d_inj n m : Str.format_03d n = Str.format_03d m → n = m.
Proof.
  intros H. pose proof (to_nat_format_03d n) as Hn.
  rewrite H, to_nat_format_03d in Hn. by injection Hn.
Qed.

Lemma zeros_length k : String.length (Str.zeros k) = k.
Proof. induction k; simpl; auto. Qed.

(** The number takes three characters, or as many as its digits need. *)
Lemma format_03d_length n :
  String.length (Str.format_03d n) = 3 `max` String.length (Str.of_nat n).
Proof. unfold Str.format_03d. rewrite append_length, zeros_length. lia. Qed.

End string_facts.

(* ===================================================================== *)
(** * Directory listings *)
(* ===================================================================== *)

Section listing_facts.
Implicit Types (d : gmap string node) (p k nm : string) (e file : DirEntry).

Lemma join_child p nm :
  Str.startswith Path.sep nm = false → Path.join p nm = os.dir_prefix p +:+ nm.
Proof.
  intros Hnm. unfold Path.join, os.dir_prefix. rewrite Hnm.
  destruct (bool_decide (p = "") || Str.endswith Path.sep p); [done |].
  by rewrite append_assoc.
Qed.

Lemma child_name_Some p k nm :
  os.child_name p k = Some nm ↔
  k = os.dir_prefix p +:+ nm ∧ nm ≠ "" ∧ Str.contains Path.sep nm = false.
Proof.
  unfold os.child_name.
  destruct (Str.strip_prefix (os.dir_prefix p) k) as [r|] eqn:E.
  - apply strip_prefix_Some in E as ->.
    destruct (bool_decide (r = "") || Str.contains Path.sep r) eqn:Hr.
    + split; [done |]. intros (->%(inj _) & Hne & Hc).
      apply orb_true_iff in Hr as [?%bool_decide_eq_true | ?]; congruence.
    + apply orb_false_iff in Hr as [?%bool_decide_eq_false ?].
      split; [by intros [= <-] | by intros (->%(inj _) & _)].
  - split; [done |]. intros (Hk & _).
    apply strip_prefix_Some in Hk. congruence.
Qed.

Lemma child_name_join p k nm : os.child_name p k = Some nm → Path.join p nm = k.
Proof.
  intros (-> & _ & Hc)%child_name_Some.
  by apply join_child, startswith_contains.
Qed.

(** The entries of a directory are the paths of the disk one component
    below it. *)
Lemma elem_of_entries d p e :
  e ∈ os.entries d p ↔
  is_Some (d !! path e) ∧ os.child_name p (path e) = Some (name e).
Proof.
  unfold os.entries. rewrite list_elem_of_omap. split.
  - intros ([k nd] & Hin%elem_of_map_to_list & Hf). simpl in Hf.
    destruct (os.child_name p k) as [nm|] eqn:E; [| done].
    injection Hf as <-. simpl. rewrite (child_name_join _ _ _ E). eauto.
  - destruct e as [nm k]. simpl. intros [[nd Hnd] E].
    exists (k, nd). split; [by apply elem_of_map_to_list |].
    simpl. rewrite E. simpl. by rewrite (child_name_join _ _ _ E).
Qed.

Lemma entries_name_nonempty d p e : e ∈ os.entries d p → name e ≠ "".
Proof. intros [_ (_ & ? & _)%child_name_Some]%elem_of_entries. done. Qed.

(** Two entries of one directory with the same path have the same name. *)
Lemma entries_path_name d p e e' :
  e ∈ os.entries d p → e' ∈ os.entries d p → path e = path e' → e = e'.
Proof.
  intros [_ He]%elem_of_entries [_ He']%elem_of_entries Hp.
  rewrite Hp, He' in He. destruct e, e'; simpl in *; congruence.
Qed.

Lemma entries_NoDup_path d p : NoDup (path <$> os.entries d p).
Proof.
  unfold os.entries.
  pose proof (NoDup_fst_map_to_list d) as Hnd.
  induction (map_to_list d) as [|[k nd] l IH]; simpl; [constructor |].
  apply NoDup_cons in Hnd as [Hk Hl]. simpl in Hk.
  destruct (os.child_name p k) as [nm|] eqn:E; simpl; [| by apply IH].
  apply NoDup_cons. split; [| by apply IH].
  rewrite (child_name_join _ _ _ E).
  intros (e & Hpe & (kn & Hkn & Hf)%list_elem_of_omap)%list_elem_of_fmap.
  destruct (os.child_name p kn.1) as [nm'|] eqn:E'; [| done].
  injection Hf as <-. simpl in Hpe. rewrite (child_name_join _ _ _ E') in Hpe.
  apply Hk. rewrite Hpe. by apply list_elem_of_fmap_2.
Qed.

End listing_facts.

(* ===================================================================== *)
(** * What the scan does *)
(* ===================================================================== *)

Section scan_facts.
Implicit Types (d : gmap string node) (p : string) (r : bool).
Implicit Types (file : DirEntry) (files : list DirEntry).

Lemma is_input_image_eq file :
  ImageSource.is_input_image file
  = Ret (bool_decide (last (Str.split "." (name file)) = Some "webp")).
Proof.
  unfold ImageSource.is_input_image, index_last.
  destruct (last (Str.split "." (name file))) as [x|] eqn:E.
  - f_equal. apply bool_decide_ext. split; [by intros -> | by intros [= ->]].
  - apply last_None in E. by apply split_nonempty in E.
Qed.

Lemma enter_directory_eq r file :
  name file ≠ "" →
  ImageSource.enter_directory r file
  = Ret (r && negb (Str.startswith "." (name file))).
Proof.
  unfold ImageSource.enter_directory. destruct r; [| done].
  by destruct (name file).
Qed.

(** Without a directory to enter the loop lists the input images among the
    files, in their order. *)
Lemma scan_entries_returns self d p r files acc :
  Forall (λ file, name file ≠ "" ∧ enterable d r file = false) files →
  ImageSource.scan_entries self d p r files acc
  = Some (Ret (acc ++ (path <$> filter (listed d) files))).
Proof.
  intros H. revert acc.
  induction H as [|file files [Hnm He] _ IH]; intros acc; simpl.
  { by rewrite app_nil_r. }
  unfold enterable in He.
  destruct (os.path_isdir d (path file)) eqn:Hdir; simpl.
  - rewrite (enter_directory_eq _ _ Hnm).
    rewrite andb_true_r in He. rewrite He.
    rewrite filter_cons_False; [apply IH |].
    unfold listed. rewrite Hdir. simpl. tauto.
  - rewrite is_input_image_eq.
    destruct (bool_decide (last (Str.split "." (name file)) = Some "webp"))
      eqn:Hext.
    + rewrite filter_cons_True; [| unfold listed; rewrite Hdir, Hext; exact I].
      rewrite IH. simpl. by rewrite <- app_assoc.
    + rewrite filter_cons_False; [apply IH |].
      unfold listed. rewrite Hdir, Hext. simpl. tauto.
Qed.

(** With a directory to enter, and a call of the function that does not
    come back, the loop does not come back either. *)
Lemma scan_entries_stuck self d p r files acc :
  self p r = None →
  Forall (λ file, name file ≠ "") files →
  Exists (λ file, enterable d r file = true) files →
  ImageSource.scan_entries self d p r files acc = None.
Proof.
  intros Hself Hnm Hex. revert acc.
  induction files as [|file files IH]; intros acc.
  { by apply Exists_nil in Hex. }
  apply Forall_cons in Hnm as [Hfile Hnm]. simpl.
  destruct (os.path_isdir d (path file)) eqn:Hdir.
  - rewrite (enter_directory_eq _ _ Hfile).
    destruct (r && negb (Str.startswith "." (name file))) eqn:Hr.
    + by rewrite Hself.
    + apply IH; [done |]. apply Exists_cons in Hex as [He | ?]; [| done].
      unfold enterable in He. rewrite Hdir, andb_true_r in He. congruence.
  - rewrite is_input_image_eq.
    assert (Exists (λ file, enterable d r file = true) files) as Hex'.
    { apply Exists_cons in Hex as [He | ?]; [| done].
      unfold enterable in He. rewrite Hdir, andb_false_r in He. done. }
    destruct (bool_decide _); by apply IH.
Qed.

Lemma entries_names d p : Forall (λ file, name file ≠ "") (os.entries d p).
Proof. apply Forall_forall. intros e. apply entries_name_nonempty. Qed.

Lemma scandir_isdir d p :
  os.path_isdir d p = true → os.scandir d p = Ret (os.entries d p).
Proof.
  unfold os.path_isdir, os.scandir. by destruct (d !! p) as [[]|].
Qed.

Lemma scandir_Ret d p files :
  os.scandir d p = Ret files → os.path_isdir d p = true ∧ files = os.entries d p.
Proof.
  unfold os.path_isdir, os.scandir.
  destruct (d !! p) as [[]|]; [done | by intros [= <-] | done].
Qed.

(** A directory with a subdirectory to enter: no depth is enough. *)
Lemma generate_source_list_stuck d p r depth :
  os.path_isdir d p = true →
  Exists (λ file, enterable d r file = true) (os.entries d p) →
  ImageSource._generate_source_list depth d p r = None.
Proof.
  intros Hdir Hex. induction depth as [|depth IH]; [done |].
  simpl. rewrite (scandir_isdir _ _ Hdir).
  apply scan_entries_stuck; auto using entries_names.
Qed.

(** A directory without one: the first call lists the input images. *)
Lemma generate_source_list_returns d p r depth :
  os.path_isdir d p = true →
  Forall (λ file, enterable d r file = false) (os.entries d p) →
  ImageSource._generate_source_list (S depth) d p r
  = Some (Ret (path <$> filter (listed d) (os.entries d p))).
Proof.
  intros Hdir Hall. simpl. rewrite (scandir_isdir _ _ Hdir).
  rewrite scan_entries_returns; [done |].
  pose proof (entries_names d p) as Hnm.
  apply Forall_forall. intros e He.
  rewrite Forall_forall in Hnm, Hall. auto.
Qed.

(** Whenever the scan returns a list, it is the list of the input images
    directly in the directory, and there was no directory to enter. *)
Lemma generate_source_list_Ret d p r depth l :
  ImageSource._generate_source_list depth d p r = Some (Ret l) →
  os.path_isdir d p = true
  ∧ Forall (λ file, enterable d r file = false) (os.entries d p)
  ∧ l = path <$> filter (listed d) (os.entries d p).
Proof.
  intros H. destruct depth as [|depth]; [done |].
  assert (os.path_isdir d p = true) as Hdir.
  { simpl in H. destruct (os.scandir d p) eqn:E; [| done].
    by apply scandir_Ret in E as [? _]. }
  split; [done |].
  destruct (decide (Exists (λ file, enterable d r file = true) (os.entries d p)))
    as [Hex | Hno].
  { by rewrite (generate_source_list_stuck _ _ _ _ Hdir Hex) in H. }
  assert (Forall (λ file, enterable d r file = false) (os.entries d p)) as Hall.
  { apply Forall_forall. intros e He.
    destruct (enterable d r e) eqn:E; [| done].
    exfalso. apply Hno, Exists_exists. eauto. }
  split; [done |].
  rewrite (generate_source_list_returns _ _ _ _ Hdir Hall) in H. congruence.
Qed.

End scan_facts.

(* ===================================================================== *)
(** * The writer's numbering *)
(* ===================================================================== *)

Section writer_facts.
Implicit Types (d : gmap string node) (out : string) (self : ImageWriter.t).
Implicit Types (w : World) (n m k : nat).

Lemma append_inv_tail (a b s : string) : a +:+ s = b +:+ s → a = b.
Proof.
  revert b. induction a as [|x a IH]; intros [|y b] H.
  - done.
  - apply (f_equal String.length) in H.
    rewrite append_nil_l, append_cons in H. simpl in H.
    rewrite append_length in H. lia.
  - apply (f_equal String.length) in H.
    rewrite append_nil_l, append_cons in H. simpl in H.
    rewrite append_length in H. lia.
  - rewrite !append_cons in H. injection H as -> H. f_equal. by apply IH.
Qed.

Lemma build_image_path_eq out n :
  ImageWriter._build_image_path (ImageWriter.mk out n)
  = os.dir_prefix out +:+ (Str.format_03d n +:+ ".png").
Proof.
  unfold ImageWriter._build_image_path, ImageWriter._IMAGE_FILENAME_FORMAT.
  simpl. apply join_child.
  unfold Str.format_03d, Str.of_nat.
  destruct (3 - _) as [|k]; [| done].
  rewrite append_nil_l.
  destruct (Nat.to_uint n); done.
Qed.

(** Two counters give two paths. *)
Lemma build_image_path_inj out n m :
  ImageWriter._build_image_path (ImageWriter.mk out n)
  = ImageWriter._build_image_path (ImageWriter.mk out m) →
  n = m.
Proof.
  rewrite !build_image_path_eq.
  intros H%(inj _)%append_inv_tail. by apply format_03d_inj.
Qed.

(** The path of an image is longer than the path of the folder. *)
Lemma build_image_path_longer out n :
  String.length out
  < String.length (ImageWriter._build_image_path (ImageWriter.mk out n)).
Proof.
  rewrite build_image_path_eq, !append_length. unfold os.dir_prefix.
  destruct (_ || _); [| rewrite append_length]; simpl; lia.
Qed.

Lemma build_image_path_ne_dir out n :
  ImageWriter._build_image_path (ImageWriter.mk out n) ≠ out.
Proof.
  intros H. pose proof (build_image_path_longer out n) as Hlt.
  rewrite H in Hlt. lia.
Qed.

Lemma path_exists_insert_ne d p q nd :
  p ≠ q → os.path_exists (<[p := nd]> d) q = os.path_exists d q.
Proof. intros. unfold os.path_exists. by rewrite lookup_insert_ne. Qed.

Lemma path_exists_true d p : os.path_exists d p = true ↔ is_Some (d !! p).
Proof. unfold os.path_exists. apply bool_decide_eq_true. Qed.

Lemma path_exists_false d p : os.path_exists d p = false ↔ d !! p = None.
Proof.
  unfold os.path_exists. rewrite bool_decide_eq_false.
  by rewrite eq_None_not_Some.
Qed.

(** Where the counting loop stops: at the first counter from the start
    whose path does not exist. *)
Lemma count_existing_Some fuel d out n self :
  ImageWriter.count_existing fuel d (ImageWriter.mk out n) = Some self →
  ∃ k, self = ImageWriter.mk out k ∧ n ≤ k
       ∧ (∀ i, n ≤ i < k →
            os.path_exists d
              (ImageWriter._build_image_path (ImageWriter.mk out i)) = true)
       ∧ os.path_exists d
           (ImageWriter._build_image_path (ImageWriter.mk out k)) = false.
Proof.
  revert n. induction fuel as [|fuel IH]; intros n; simpl; [done |].
  destruct (os.path_exists d _) eqn:E.
  - intros (k & -> & Hle & Hbelow & Hk)%IH. exists k.
    split; [done |]. split; [lia |]. split; [| done].
    intros i Hi. destruct (decide (i = n)) as [-> | Hne]; [done |].
    apply Hbelow. lia.
  - intros [= <-]. exists n. split; [done |]. split; [done |].
    split; [intros; lia | done].
Qed.

(** When the loop runs out of tests, every path it tested exists. *)
Lemma count_existing_None fuel d out n :
  ImageWriter.count_existing fuel d (ImageWriter.mk out n) = None →
  ∀ i, n ≤ i < n + fuel →
    os.path_exists d (ImageWriter._build_image_path (ImageWriter.mk out i)) = true.
Proof.
  revert n. induction fuel as [|fuel IH]; intros n; simpl.
  { intros _ i Hi. lia. }
  destruct (os.path_exists d _) eqn:E; [| done].
  intros H i Hi. destruct (decide (i = n)) as [-> | Hne]; [done |].
  apply (IH _ H). lia.
Qed.

(** The loop ends: a disk holds fewer paths than the tests it is given. *)
Lemma count_existing_total d out n :
  is_Some (ImageWriter.count_existing (S (size d)) d (ImageWriter.mk out n)).
Proof.
  destruct (ImageWriter.count_existing _ _ _) eqn:E; [eauto |]. exfalso.
  pose proof (count_existing_None _ _ _ _ E) as Hall.
  set (slot := λ i, ImageWriter._build_image_path (ImageWriter.mk out i)).
  set (l := slot <$> seq n (S (size d))).
  assert (NoDup l) as Hnd.
  { apply NoDup_fmap_2_strong; [| apply NoDup_seq].
    intros i j _ _. apply build_image_path_inj. }
  assert (list_to_set l ⊆ dom d) as Hsub.
  { intros p (i & -> & Hi%elem_of_seq)%elem_of_list_to_set%list_elem_of_fmap.
    apply elem_of_dom, path_exists_true, Hall. lia. }
  apply subseteq_size in Hsub.
  rewrite size_list_to_set, size_dom in Hsub; [| done].
  unfold l in Hsub. rewrite length_fmap, length_seq in Hsub. lia.
Qed.

(** [ImageWriter(out)] comes back.  When the folder is missing and cannot be
    made, [os.mkdir] raises, after the note that the folder was made has
    been printed.  Otherwise a writer is returned, with the first free
    counter. *)
Lemma ImageWriter_init_run out w :
  (os.path_exists (disk w) out = false
   ∧ ∃ e, os.check_mkdir (disk w) out = Exc e
          ∧ ImageWriter.__init__ out w
            = Some (Exc e,
                    {| disk := disk w;
                       stdout := stdout w
                                 ++ ["Path " +:+ out
                                     +:+ " do not exists. Created path."] |}))
  ∨ (folder_at_hand out w
     ∧ ∃ k,
         ImageWriter.__init__ out w
         = Some (Ret (ImageWriter.mk out k),
                 {| disk := disk (after_mkdir out w);
                    stdout := stdout (after_mkdir out w)
                              ++ ["Initial image count is "
                                  +:+ Str.of_nat (k - 1) +:+ "."] |})
         ∧ 1 ≤ k
         ∧ (∀ i, 1 ≤ i < k →
              os.path_exists (disk (after_mkdir out w))
                (ImageWriter._build_image_path (ImageWriter.mk out i)) = true)
         ∧ os.path_exists (disk (after_mkdir out w))
             (ImageWriter._build_image_path (ImageWriter.mk out k)) = false).
Proof.
  destruct (count_existing_total (disk (after_mkdir out w)) out 1)
    as [self Hself].
  destruct (count_existing_Some _ _ _ _ _ Hself) as (k & -> & Hk).
  unfold folder_at_hand.
  unfold ImageWriter.__init__, mbind, Comp_bind, exists_, after_mkdir in *.
  destruct (os.path_exists (disk w) out) eqn:E; simpl in *.
  - right. split; [by left |]. exists k. split; [| done].
    unfold mret, Comp_ret. rewrite Hself. done.
  - unfold print, mkdir. simpl.
    destruct (os.check_mkdir (disk w) out) as [[]|e] eqn:Ef.
    + right. split; [by right |]. exists k. split; [| done].
      simpl. rewrite Hself. done.
    + left. split; [done |]. by exists e.
Qed.

(** A writer that was returned: the same, read off the result. *)
Lemma ImageWriter_init_Ret out w self w' :
  ImageWriter.__init__ out w = Some (Ret self, w') →
  folder_at_hand out w
  ∧ ∃ k,
      self = ImageWriter.mk out k
      ∧ w' = {| disk := disk (after_mkdir out w);
                stdout := stdout (after_mkdir out w)
                          ++ ["Initial image count is "
                              +:+ Str.of_nat (k - 1) +:+ "."] |}
      ∧ 1 ≤ k
      ∧ (∀ i, 1 ≤ i < k →
           os.path_exists (disk (after_mkdir out w))
             (ImageWriter._build_image_path (ImageWriter.mk out i)) = true)
      ∧ os.path_exists (disk (after_mkdir out w))
          (ImageWriter._build_image_path (ImageWriter.mk out k)) = false.
Proof.
  destruct (ImageWriter_init_run out w)
    as [(_ & e & _ & ->) | (Hf & k & -> & Hk)]; [done |].
  intros [= <- <-]. split; [done |]. by exists k.
Qed.

(** [write_image] saves at the path of the counter and moves on to the next
    counter; it raises, and changes nothing, when that path cannot be
    written. *)
Lemma write_image_run self image w :
  ImageWriter.write_image self image w
  = match os.check_writable (disk w) (ImageWriter._build_image_path self) with
    | Exc e => Some (Exc e, w)
    | Ret _ =>
        Some (Ret (ImageWriter.mk (ImageWriter._output_path self)
                                  (ImageWriter._image_count self + 1)),
              {| disk := <[ImageWriter._build_image_path self
                           := File (Some image)]> (disk w);
                 stdout := stdout w
                           ++ ["Saved image at "
                               +:+ ImageWriter._build_image_path self] |})
    end.
Proof.
  unfold ImageWriter.write_image, mbind, Comp_bind, Image_save.
  by destruct (os.check_writable _ _) as [[]|e].
Qed.

End writer_facts.

(* ===================================================================== *)
(** * The life of one writer *)
(* ===================================================================== *)

Section session_facts.
Implicit Types (out : string) (w : World) (images : list Image).

Lemma slot_eq out i :
  slot out i = ImageWriter._build_image_path (ImageWriter.mk out i).
Proof. reflexivity. Qed.

(** The calls of a session go to the slots from the writer's counter on, one
    slot per image. *)
Lemma write_all_targets out k images w targets w' :
  write_all (ImageWriter.mk out k) images w = Some (Ret targets, w') →
  targets = slot out <$> seq k (length images).
Proof.
  revert k w targets. induction images as [|image images IH];
    intros k w targets; simpl.
  { by intros [= <- <-]. }
  unfold mbind, Comp_bind at 1. rewrite write_image_run. simpl.
  destruct (os.check_writable _ _) as [[]|e]; [| done].
  unfold mbind, Comp_bind at 1.
  destruct (write_all _ images _) as [[[rest|] w1]|] eqn:E; try done.
  intros [= <- <-]. rewrite Nat.add_1_r in E.
  by rewrite (IH _ _ _ E).
Qed.

Lemma slots_NoDup out k n : NoDup (slot out <$> seq k n).
Proof.
  apply NoDup_fmap_2_strong; [| apply NoDup_seq].
  intros i j _ _. rewrite !slot_eq. apply build_image_path_inj.
Qed.

(** Making the folder does not make any slot of it exist. *)
Lemma after_mkdir_slot out w i :
  os.path_exists (disk (after_mkdir out w)) (slot out i)
  = os.path_exists (disk w) (slot out i).
Proof.
  unfold after_mkdir. destruct (os.path_exists (disk w) out); [done |].
  simpl. apply path_exists_insert_ne.
  intros H. by apply (build_image_path_ne_dir out i).
Qed.

Lemma writer_session_inv out images w targets w' :
  writer_session out images w = Some (Ret targets, w') →
  ∃ k, targets = slot out <$> seq k (length images)
       ∧ 1 ≤ k
       ∧ (∀ i, 1 ≤ i < k → os.path_exists (disk w) (slot out i) = true)
       ∧ os.path_exists (disk w) (slot out k) = false.
Proof.
  unfold writer_session, mbind, Comp_bind at 1.
  destruct (ImageWriter_init_run out w)
    as [(_ & e & _ & ->) | (_ & k & -> & Hk & Hbelow & Hfree)]; [done |].
  intros ->%write_all_targets. exists k.
  rewrite <- slot_eq, after_mkdir_slot in Hfree.
  split; [done |]. split; [done |]. split; [| done].
  intros i Hi. rewrite <- after_mkdir_slot. by apply Hbelow.
Qed.

End session_facts.

(* ===================================================================== *)
(** * Rows of writes *)
(* ===================================================================== *)

Section writes_facts.
Implicit Types (out : string) (w : World) (images : list Image).

(** A session taken apart: the writer made, then the writes. *)
Lemma writer_session_split out images w targets w' :
  writer_session out images w = Some (Ret targets, w') →
  ∃ k,
    ImageWriter.__init__ out w
    = Some (Ret (ImageWriter.mk out k),
            {| disk := disk (after_mkdir out w);
               stdout := stdout (after_mkdir out w)
                         ++ ["Initial image count is "
                             +:+ Str.of_nat (k - 1) +:+ "."] |})
    ∧ 1 ≤ k
    ∧ (∀ i, 1 ≤ i < k → os.path_exists (disk w) (slot out i) = true)
    ∧ os.path_exists (disk w) (slot out k) = false
    ∧ write_all (ImageWriter.mk out k) images
        {| disk := disk (after_mkdir out w);
           stdout := stdout (after_mkdir out w)
                     ++ ["Initial image count is "
                         +:+ Str.of_nat (k - 1) +:+ "."] |}
      = Some (Ret targets, w').
Proof.
  unfold writer_session, mbind, Comp_bind at 1.
  destruct (ImageWriter_init_run out w)
    as [(_ & e & _ & ->) | (_ & k & Hinit & Hk & Hbelow & Hfree)]; [done |].
  rewrite Hinit. intros Hwrites. exists k.
  rewrite <- slot_eq, after_mkdir_slot in Hfree.
  split; [done |]. split; [done |]. split; [| done].
  intros i Hi. rewrite <- after_mkdir_slot. by apply Hbelow.
Qed.

(** The first free number of a folder is one number. *)
Lemma first_free_unique (d : gmap string node) out k k' :
  (∀ i, 1 ≤ i < k → os.path_exists d (slot out i) = true) →
  os.path_exists d (slot out k) = false →
  (∀ i, 1 ≤ i < k' → os.path_exists d (slot out i) = true) →
  os.path_exists d (slot out k') = false →
  1 ≤ k → 1 ≤ k' → k = k'.
Proof.
  intros Hb Hf Hb' Hf' Hk Hk'.
  destruct (lt_eq_lt_dec k k') as [[Hlt | ->] | Hlt]; [| done |].
  - rewrite Hb' in Hf; [done | lia].
  - rewrite Hb in Hf'; [done | lia].
Qed.

(** What a row of writes leaves behind. *)
Lemma write_all_run out images :
  ∀ k w targets w',
    write_all (ImageWriter.mk out k) images w = Some (Ret targets, w') →
    targets = slot out <$> seq k (length images)
    ∧ (∀ i image, images !! i = Some image →
         disk w' !! slot out (k + i) = Some (File (Some image)))
    ∧ (∀ q, q ∉ targets → disk w' !! q = disk w !! q)
    ∧ stdout w' = stdout w ++ ((λ t, "Saved image at " +:+ t) <$> targets).
Proof.
  induction images as [|image images IH]; intros k w targets w'; simpl.
  { intros [= <- <-]. split; [done |]. split; [done |]. split; [done |].
    by rewrite app_nil_r. }
  unfold mbind, Comp_bind at 1. rewrite write_image_run. simpl.
  rewrite <- slot_eq.
  set (w2 := {| disk := <[slot out k := File (Some image)]> (disk w);
                stdout := stdout w ++ ["Saved image at " +:+ slot out k] |}).
  assert ((write_all (ImageWriter.mk out (k + 1)) images
             ≫= (λ ts, mret (slot out k :: ts))) w2 = Some (Ret targets, w') →
          targets = slot out k :: (slot out <$> seq (S k) (length images))
          ∧ (∀ i img, (image :: images) !! i = Some img →
               disk w' !! slot out (k + i) = Some (File (Some img)))
          ∧ (∀ q, q ∉ targets → disk w' !! q = disk w !! q)
          ∧ stdout w' = stdout w ++ ((λ t, "Saved image at " +:+ t) <$> targets))
    as Hgood.
  { unfold mbind, Comp_bind.
    destruct (write_all _ images w2) as [[[rest|] w3]|] eqn:E; try done.
    intros [= <- <-].
    destruct (IH _ _ _ _ E) as (Hrest & Hsaved & Hother & Hout).
    rewrite Nat.add_1_r in Hrest.
    assert (slot out k ∉ rest) as Hk.
    { rewrite Hrest.
      intros (i & Heq & Hi%elem_of_seq)%list_elem_of_fmap.
      rewrite !slot_eq in Heq. apply build_image_path_inj in Heq. lia. }
    split; [by rewrite Hrest |]. split; [| split].
    - intros [|i] img; simpl.
      + intros [= <-]. rewrite Nat.add_0_r, (Hother _ Hk).
        simpl. by rewrite lookup_insert_eq.
      + intros Hi. replace (k + S i) with (k + 1 + i) by lia. by apply Hsaved.
    - intros q [Hq Hqrest]%not_elem_of_cons.
      rewrite (Hother q Hqrest). simpl. by rewrite lookup_insert_ne.
    - rewrite Hout. simpl. by rewrite <- app_assoc. }
  destruct (os.check_writable (disk w) (slot out k)) as [[]|e]; [| done].
  intros Hrun. by apply Hgood.
Qed.

End writes_facts.

(* ===================================================================== *)
(** * The source's pulls *)
(* ===================================================================== *)

Section source_facts.
Implicit Types (d : gmap string node) (w : World) (self : ImageSource.t).

(** What a pull does, by the list of paths left and the next file. *)
Lemma ImageSource_next_run self w :
  ImageSource.__next__ self w
  = match last (ImageSource._source_list self) with
    | None => Some (Exc StopIteration, w)
    | Some path =>
        match Image_open (disk w) path with
        | Exc e => Some (Exc e, w)
        | Ret image =>
            Some (Ret (convert_RGB image,
                       ImageSource.mk (removelast (ImageSource._source_list self))
                                      (ImageSource._destructive self)),
                  if ImageSource._destructive self
                  then {| disk := delete path (disk w); stdout := stdout w |}
                  else w)
        end
    end.
Proof.
  unfold ImageSource.__next__, try_except_IndexError, mbind, Comp_bind,
    lift_res, pop.
  destruct (last (ImageSource._source_list self)) as [path|]; [| done].
  unfold Image_open, remove.
  destruct (disk w !! path) as [[[image|]|]|] eqn:E; try done.
  destruct (ImageSource._destructive self); [| done].
  by rewrite E.
Qed.

(** What making a source does, by the scan. *)
Lemma ImageSource_init_run depth source_path destructive recursive w :
  ImageSource.__init__ depth source_path destructive recursive w
  = if os.path_exists (disk w) source_path then
      match ImageSource._generate_source_list depth (disk w)
              source_path recursive with
      | None => None
      | Some (Exc e) => Some (Exc e, w)
      | Some (Ret source_list) =>
          Some (Ret (ImageSource.mk source_list destructive),
                {| disk := disk w;
                   stdout := stdout w
                             ++ ["Found " +:+ Str.of_nat (length source_list)
                                 +:+ " input images."] |})
      end
    else Some (Exc (OSError ("Source path " +:+ source_path
                             +:+ " do not exist.")), w).
Proof.
  unfold ImageSource.__init__, mbind, Comp_bind, exists_.
  destruct (os.path_exists (disk w) source_path); [| done]. simpl.
  by destruct (ImageSource._generate_source_list _ _ _ _) as [[l|e]|].
Qed.

End source_facts.

(* ===================================================================== *)
(** * Source paths and output paths never meet *)
(* ===================================================================== *)

Section path_ends.
Implicit Types (d : gmap string node) (s pre : string).

Lemma last_char_append s1 s2 : s2 ≠ "" → last_char (s1 +:+ s2) = last_char s2.
Proof.
  intros Hne. induction s1 as [|a s1 IH]; [done |].
  rewrite append_cons. simpl. rewrite IH.
  destruct (s1 +:+ s2) eqn:E; [| done].
  destruct s1; [by rewrite append_nil_l in E | by rewrite append_cons in E].
Qed.

Lemma slot_last_char out i : last_char (slot out i) = Some "g"%char.
Proof.
  rewrite slot_eq, build_image_path_eq, <- append_assoc.
  by rewrite last_char_append.
Qed.

Lemma listed_last_char d p file :
  file ∈ os.entries d p → listed d file → last_char (path file) = Some "p"%char.
Proof.
  intros [_ Hchild]%elem_of_entries [_ Hext%bool_decide_unpack]%andb_prop_elim.
  apply child_name_Some in Hchild as (-> & Hne & _).
  rewrite last_char_append; [| done].
  apply split_last_iff in Hext as [_ [-> | [pre ->]]]; [done |].
  by rewrite last_char_append.
Qed.

(** The list the scan returns: paths of the disk, all different, none of
    them the path of a numbered image. *)
Lemma source_list_facts d p (l : list string) :
  l = path <$> filter (listed d) (os.entries d p) →
  NoDup l
  ∧ (∀ q, q ∈ l → is_Some (d !! q))
  ∧ (∀ q out i, q ∈ l → q ≠ slot out i).
Proof.
  intros ->. split; [| split].
  - eapply sublist_NoDup; [apply (entries_NoDup_path d p) |].
    apply fmap_sublist, sublist_filter.
  - intros q (e & -> & [_ He]%list_elem_of_filter)%list_elem_of_fmap.
    by apply elem_of_entries in He as [? _].
  - intros q out i (e & -> & [Hl He]%list_elem_of_filter)%list_elem_of_fmap Heq.
    pose proof (listed_last_char _ _ _ He Hl) as Hp.
    rewrite Heq, slot_last_char in Hp. done.
Qed.

End path_ends.

(* ===================================================================== *)
(** * The loop of main *)
(* ===================================================================== *)

Section loop_facts.
Implicit Types (d : gmap string node) (w : World) (l : list string).

Lemma for_image_in_S fuel sources writer w :
  for_image_in (S fuel) sources writer w
  = match ImageSource.__next__ sources w with
    | Some (Ret (image, sources'), w') =>
        (writer' ← ImageWriter.write_image writer image;
         for_image_in fuel sources' writer') w'
    | Some (Exc StopIteration, w') => Some (Ret tt, w')
    | Some (Exc e, w') => Some (Exc e, w')
    | None => None
    end.
Proof. reflexivity. Qed.

(** One turn of the loop that goes well: the image of the last path is
    read, the path removed in destructive mode, the image saved in the
    writer's slot. *)
Lemma for_image_in_turn fuel destr out l p k w w' :
  for_image_in (S fuel) (ImageSource.mk (l ++ [p]) destr)
               (ImageWriter.mk out k) w = Some (Ret tt, w') →
  ∃ image w2,
    disk w !! p = Some (File (Some image))
    ∧ disk w2 = <[slot out k := File (Some (convert_RGB image))]>
                  (if destr then delete p (disk w) else disk w)
    ∧ for_image_in fuel (ImageSource.mk l destr)
                   (ImageWriter.mk out (k + 1)) w2 = Some (Ret tt, w').
Proof.
  rewrite for_image_in_S, ImageSource_next_run. simpl.
  rewrite last_snoc, removelast_last. unfold Image_open.
  destruct (disk w !! p) as [[[image|]|]|] eqn:Hp; try done.
  unfold mbind, Comp_bind. rewrite write_image_run. simpl.
  rewrite <- slot_eq.
  set (w1 := if destr then {| disk := delete p (disk w); stdout := stdout w |}
             else w).
  assert (disk w1 = if destr then delete p (disk w) else disk w) as Hw1
    by (unfold w1; by destruct destr).
  destruct (os.check_writable (disk w1) (slot out k)) as [[]|e]; [| done].
  intros Hrun. eexists image, _. split; [done |].
  split; [| exact Hrun]. simpl. by rewrite Hw1.
Qed.

(** A loop that ends well has saved the image of every source path, last
    path first, in the slots from the writer's counter on; it has removed
    the source paths in destructive mode and left them as they were
    otherwise; and it has touched no other path. *)
Lemma for_image_in_run destr out l :
  ∀ fuel k w w',
    for_image_in fuel (ImageSource.mk l destr) (ImageWriter.mk out k) w
    = Some (Ret tt, w') →
    NoDup l →
    (∀ q i, q ∈ l → q ≠ slot out i) →
    (∀ i p, reverse l !! i = Some p →
       ∃ image, disk w !! p = Some (File (Some image))
                ∧ disk w' !! slot out (k + i)
                  = Some (File (Some (convert_RGB image))))
    ∧ (∀ p, p ∈ l → disk w' !! p = if destr then None else disk w !! p)
    ∧ (∀ q, q ∉ l → (∀ i, i < length l → q ≠ slot out (k + i)) →
         disk w' !! q = disk w !! q).
Proof.
  induction l as [|p l IH] using rev_ind; intros fuel k w w' Hrun Hnd Hdisj.
  - destruct fuel as [|fuel]; [done |].
    rewrite for_image_in_S, ImageSource_next_run in Hrun. simpl in Hrun.
    injection Hrun as <-. split; [| split]; [| | done].
    + intros i p. by rewrite reverse_nil.
    + intros p Hp. by apply elem_of_nil in Hp.
  - destruct fuel as [|fuel]; [done |].
    apply for_image_in_turn in Hrun as (image & w2 & Hp & Hw2 & Hrun).
    apply NoDup_app in Hnd as (Hnd & Hpl & _).
    assert (p ∉ l) as Hnotin.
    { intros Hin. apply (Hpl p Hin). by apply list_elem_of_singleton. }
    assert (∀ q i, q ∈ l → q ≠ slot out i) as Hdisj'.
    { intros q i Hq. apply Hdisj, elem_of_app. by left. }
    assert (∀ i, p ≠ slot out i) as Hpslot.
    { intros i. apply Hdisj, elem_of_app. right. by apply list_elem_of_singleton. }
    destruct (IH fuel (k + 1) w2 w' Hrun Hnd Hdisj') as (Hsaved & Hsrc & Hother).
    assert (∀ q, q ≠ p → q ≠ slot out k → disk w2 !! q = disk w !! q) as Hstep.
    { intros q Hqp Hqs. rewrite Hw2, lookup_insert_ne; [| done].
      destruct destr; [by rewrite lookup_delete_ne | done]. }
    assert (∀ j, slot out k ≠ slot out (k + 1 + j)) as Hslots.
    { intros j. rewrite !slot_eq. intros H%build_image_path_inj. lia. }
    split; [| split].
    + intros i q. rewrite reverse_snoc. destruct i as [|i]; simpl.
      * intros [= <-]. exists image. split; [done |].
        rewrite Nat.add_0_r, Hother; [by rewrite Hw2, lookup_insert_eq | |].
        -- intros Hin. by apply (Hdisj' _ k Hin).
        -- intros j _. apply Hslots.
      * intros Hq. destruct (Hsaved i q Hq) as (image' & Hq2 & Hsl).
        exists image'.
        assert (q ∈ l) as Hin.
        { apply elem_of_reverse, list_elem_of_lookup. eauto. }
        rewrite Hstep in Hq2; [| by intros -> | by apply Hdisj'].
        split; [done |]. by replace (k + S i) with (k + 1 + i) by lia.
    + intros q [Hq | ->%list_elem_of_singleton]%elem_of_app.
      * rewrite (Hsrc q Hq). destruct destr; [done |].
        apply Hstep; [by intros -> | by apply Hdisj'].
      * rewrite Hother; [| done | intros j _; apply Hpslot].
        rewrite Hw2, lookup_insert_ne by (intros H; by apply (Hpslot k)).
        destruct destr; [by rewrite lookup_delete_eq | done].
    + intros q Hq Hqslots.
      assert (q ≠ p) as Hqp.
      { intros ->. apply Hq, elem_of_app. right. by apply list_elem_of_singleton. }
      assert (q ∉ l) as Hql.
      { intros Hin. apply Hq, elem_of_app. by left. }
      rewrite length_app in Hqslots. simpl in Hqslots.
      rewrite Hother; [| done |].
      * apply Hstep; [done |].
        specialize (Hqslots 0). rewrite Nat.add_0_r in Hqslots.
        apply Hqslots. lia.
      * intros j Hj. replace (k + 1 + j) with (k + S j) by lia.
        apply Hqslots. lia.
Qed.

(** The loop of [main] ends: with one call of [__next__] more than there
    are paths it never runs out of calls. *)
Lemma for_image_in_total destr out l :
  ∀ fuel k w,
    length l < fuel →
    is_Some (for_image_in fuel (ImageSource.mk l destr)
                          (ImageWriter.mk out k) w).
Proof.
  induction l as [|p l IH] using rev_ind; intros fuel k w Hfuel.
  - destruct fuel as [|fuel]; [lia |].
    rewrite for_image_in_S, ImageSource_next_run. simpl. eauto.
  - rewrite length_app in Hfuel. simpl in Hfuel.
    destruct fuel as [|fuel]; [lia |].
    rewrite for_image_in_S, ImageSource_next_run. simpl.
    rewrite last_snoc, removelast_last.
    destruct (Image_open (disk w) p) as [image|e] eqn:Hopen.
    + unfold mbind, Comp_bind. rewrite write_image_run. simpl.
      destruct (os.check_writable _ _) as [[]|e]; [apply IH; lia | eauto].
    + unfold Image_open in Hopen.
      destruct (disk w !! p) as [[[image|]|]|]; simplify_eq; eauto.
Qed.

End loop_facts.

(* ===================================================================== *)
(** * A whole run *)
(* ===================================================================== *)

Section main_facts.
Implicit Types (w : World) (args : Namespace).

(** A run that ends well, taken apart: the scan returned a list, the writer
    found its first free number, and the loop over the list ended well. *)
Lemma main_inv depth args w w' :
  main depth args w = Some (Ret tt, w') →
  ∃ l k w1,
    ImageSource._generate_source_list depth (disk w) (source_path args)
      (recursive args) = Some (Ret l)
    ∧ disk w1 = (if os.path_exists (disk w) (output_path args) then disk w
                 else <[output_path args := Dir]> (disk w))
    ∧ for_image_in (S (length l)) (ImageSource.mk l (destructive args))
                   (ImageWriter.mk (output_path args) k) w1
      = Some (Ret tt, w').
Proof.
  unfold main, mbind, Comp_bind at 1. rewrite ImageSource_init_run.
  destruct (os.path_exists (disk w) (source_path args)); [| done].
  destruct (ImageSource._generate_source_list _ _ _ _) as [[l|e]|]; try done.
  unfold Comp_bind at 1.
  match goal with |- context [ImageWriter.__init__ ?o ?w0] =>
    destruct (ImageWriter_init_run o w0)
      as [(_ & e & _ & ->) | (_ & k & -> & _)]; [done |] end.
  simpl. intros Hloop. eexists l, k, _. split; [done |].
  split; [| exact Hloop].
  simpl. unfold after_mkdir. simpl.
  by destruct (os.path_exists (disk w) (output_path args)).
Qed.

(** What a run that ends well leaves on disk. *)
Lemma main_run depth args w w' :
  main depth args w = Some (Ret tt, w') →
  ∃ l k,
    ImageSource._generate_source_list depth (disk w) (source_path args)
      (recursive args) = Some (Ret l)
    ∧ l = path <$> filter (listed (disk w))
                          (os.entries (disk w) (source_path args))
    ∧ NoDup l
    ∧ (∀ i p, reverse l !! i = Some p →
         ∃ image, disk w !! p = Some (File (Some image))
                  ∧ disk w' !! slot (output_path args) (k + i)
                    = Some (File (Some (convert_RGB image))))
    ∧ (∀ p, p ∈ l →
         disk w' !! p = if destructive args then None else disk w !! p)
    ∧ (∀ q, q ∉ l → q ≠ output_path args →
         (∀ i, i < length l → q ≠ slot (output_path args) (k + i)) →
         disk w' !! q = disk w !! q).
Proof.
  intros (l & k & w1 & Hscan & Hw1 & Hloop)%main_inv.
  pose proof (generate_source_list_Ret _ _ _ _ _ Hscan) as (_ & _ & Hl).
  destruct (source_list_facts _ _ _ Hl) as (Hnd & Hkeys & Hdisj).
  destruct (for_image_in_run _ _ _ _ _ _ _ Hloop Hnd)
    as (Hsaved & Hsrc & Hother); [by eauto |].
  assert (∀ q, q ≠ output_path args → disk w1 !! q = disk w !! q) as Hsame.
  { intros q Hq. rewrite Hw1.
    destruct (os.path_exists _ _); [done | by rewrite lookup_insert_ne]. }
  assert (∀ p, p ∈ l → disk w1 !! p = disk w !! p) as Hsame_src.
  { intros p Hp. rewrite Hw1.
    destruct (os.path_exists _ _) eqn:E; [done |].
    rewrite lookup_insert_ne; [done |]. intros Heq. subst p.
    apply path_exists_false in E. apply Hkeys in Hp as [? ?]. congruence. }
  exists l, k. split; [done |]. split; [done |]. split; [done |].
  split; [| split].
  - intros i p Hp. destruct (Hsaved i p Hp) as (image & Himg & Hslot).
    exists image. split; [| done]. rewrite <- Hsame_src; [done |].
    apply elem_of_reverse, list_elem_of_lookup. eauto.
  - intros p Hp. rewrite (Hsrc p Hp). destruct (destructive args); [done |].
    by apply Hsame_src.
  - intros q Hq Hout Hslots. rewrite Hother; auto.
Qed.

Lemma main_depth args w depth :
  recursive args = false → main (S depth) args w = main 1 args w.
Proof.
  intros Hrec. unfold main, mbind, Comp_bind.
  rewrite !ImageSource_init_run, Hrec. simpl.
  destruct (os.path_exists _ _); [| done].
  destruct (os.scandir _ _) as [files|e]; [| done].
  assert (∀ self self' acc,
            ImageSource.scan_entries self (disk w) (source_path args) false files acc
            = ImageSource.scan_entries self' (disk w) (source_path args) false files acc)
    as Hself.
  { intros self self'. induction files as [|file files IH]; intros acc; [done |].
    simpl. destruct (os.path_isdir _ _); [apply IH |].
    destruct (ImageSource.is_input_image file) as [[]|]; auto. }
  by rewrite (Hself _ (ImageSource._generate_source_list 0 (disk w))).
Qed.

End main_facts.

(* ===================================================================== *)
(** * Runs that do not end well *)
(* ===================================================================== *)

Section frame_facts.
Implicit Types (w : World) (args : Namespace).

(** Without the destructive flag the loop changes the disk at the slots of
    the writer and nowhere else, however it ends. *)
Lemma for_image_in_frame out :
  ∀ fuel l k w r w',
    for_image_in fuel (ImageSource.mk l false) (ImageWriter.mk out k) w
    = Some (r, w') →
    ∀ q, (∀ i, q ≠ slot out i) → disk w' !! q = disk w !! q.
Proof.
  induction fuel as [|fuel IH]; intros l k w r w' Hrun q Hq; [done |].
  rewrite for_image_in_S, ImageSource_next_run in Hrun. simpl in Hrun.
  destruct (last l) as [p|]; [| by injection Hrun as <- <-].
  unfold Image_open in Hrun.
  destruct (disk w !! p) as [[[image|]|]|];
    try (by injection Hrun as <- <-).
  unfold mbind, Comp_bind in Hrun.
  rewrite write_image_run, <- slot_eq in Hrun. simpl in Hrun.
  destruct (os.check_writable (disk w) (slot out k)) as [[]|e];
    [| by injection Hrun as <- <-].
  rewrite (IH _ _ _ _ _ Hrun q Hq). simpl.
  by rewrite lookup_insert_ne.
Qed.

(** Without the destructive flag a run leaves every path that was on disk
    and is no slot of the output folder as it was, however it ends. *)
Lemma main_nondestructive_frame depth args w r w' :
  destructive args = false →
  main depth args w = Some (r, w') →
  ∀ q, is_Some (disk w !! q) →
       (∀ i, q ≠ slot (output_path args) i) →
       disk w' !! q = disk w !! q.
Proof.
  intros Hd. unfold main, mbind, Comp_bind at 1.
  rewrite ImageSource_init_run, Hd.
  destruct (os.path_exists (disk w) (source_path args));
    [| by intros [= <- <-]].
  destruct (ImageSource._generate_source_list _ _ _ _) as [[l|e]|];
    [| by intros [= <- <-] | done].
  unfold Comp_bind at 1.
  match goal with |- context [ImageWriter.__init__ ?o ?w0] =>
    destruct (ImageWriter_init_run o w0)
      as [(_ & e & _ & ->) | (_ & k & -> & _)] end.
  - by intros [= <- <-].
  - intros Hloop q Hq Hslots.
    rewrite (for_image_in_frame _ _ _ _ _ _ _ Hloop q Hslots). simpl.
    unfold after_mkdir. simpl.
    destruct (os.path_exists (disk w) (output_path args)) eqn:E; [done |].
    simpl. rewrite lookup_insert_ne; [done |]. intros Heq. subst q.
    apply path_exists_false in E. destruct Hq. congruence.
Qed.

End frame_facts.

(* ===================================================================== *)
(** * The scan of the source folder: claims C2, C3, C4, C10 *)
(* ===================================================================== *)

(** C2 (the code at the input where it departs from the claim).  In the
    folder [src] with the image [src/top.webp] and the subfolder [src/sub]
    holding [src/sub/a.webp], the scan without recursion lists the image of
    the folder itself and nothing of the subfolder; the scan with recursion
    returns no list at all, whatever depth of calls it is given, so the image
    of the subfolder is never listed. *)
Theorem recursive_scan_of_nested_folder :
  ∀ depth,
    ImageSource._generate_source_list (S depth) disk_nested "src" false
    = Some (Ret ["src/top.webp"])
    ∧ ImageSource._generate_source_list depth disk_nested "src" true = None.
Proof.
  intros depth. split.
  - rewrite generate_source_list_returns; [by vm_compute | done |].
    apply Forall_forall. intros file _. done.
  - apply generate_source_list_stuck; [done |].
    apply Exists_exists. exists {| name := "sub"; path := "src/sub" |}.
    split; [| done]. apply list_elem_of_In. vm_compute. tauto.
Qed.

(** C3.  When the source directory has a subdirectory whose name does not
    start with a dot, [_generate_source_list] with [recursive=True] returns
    nothing at any depth of nested calls: each call scans the same
    [source_path] again and meets the same subdirectory. *)
Theorem generate_source_list_never_returns :
  ∀ (d : gmap string node) (source_path : string) (sub : DirEntry) (depth : nat),
    os.path_isdir d source_path = true →
    sub ∈ os.entries d source_path →
    os.path_isdir d (path sub) = true →
    Str.startswith "." (name sub) = false →
    ImageSource._generate_source_list depth d source_path true = None.
Proof.
  intros d source_path sub depth Hdir Hin Hsub Hname.
  apply generate_source_list_stuck; [done |].
  apply Exists_exists. exists sub. split; [done |].
  unfold enterable. by rewrite Hsub, Hname.
Qed.

Lemma generate_source_list_never_returns_witness :
  ImageSource._generate_source_list 1000 disk_nested "src" true = None.
Proof.
  apply (generate_source_list_never_returns
           disk_nested "src" {| name := "sub"; path := "src/sub" |} 1000).
  - reflexivity.
  - apply list_elem_of_In. vm_compute. tauto.
  - reflexivity.
  - reflexivity.
Defined.

(** C4.  Of the entries of the scanned directory that are not directories,
    the scan lists exactly those whose name has [webp] as its last piece
    between dots, in lower case; so a file [x.WEBP] is not listed and a file
    [x.webp.bak] is not. *)
Theorem webp_extension_filter :
  ∀ (depth : nat) (d : gmap string node) (source_path : string)
    (recursive : bool) (source_list : list string) (file : DirEntry),
    ImageSource._generate_source_list depth d source_path recursive
    = Some (Ret source_list) →
    file ∈ os.entries d source_path →
    os.path_isdir d (path file) = false →
    (path file ∈ source_list ↔ last (Str.split "." (name file)) = Some "webp")
    ∧ (name file = "x.WEBP" → path file ∉ source_list)
    ∧ (name file = "x.webp.bak" → path file ∉ source_list).
Proof.
  intros depth d p r l file Hret Hin Hfile.
  apply generate_source_list_Ret in Hret as (_ & _ & ->).
  assert (path file ∈ path <$> filter (listed d) (os.entries d p)
          ↔ last (Str.split "." (name file)) = Some "webp") as Hiff.
  { rewrite list_elem_of_fmap. split.
    - intros (e & Hpath & [He Hine]%list_elem_of_filter).
      rewrite (entries_path_name d p file e Hin Hine Hpath).
      unfold listed in He. apply andb_prop_elim in He as [_ He].
      by apply bool_decide_unpack in He.
    - intros Hext. exists file. split; [done |].
      apply list_elem_of_filter. split; [| done].
      unfold listed. rewrite Hfile. simpl. by apply bool_decide_pack. }
  split; [done |].
  split; intros Hname; rewrite Hiff, Hname; by vm_compute.
Qed.

Lemma webp_extension_filter_witness :
  (("src/x.WEBP" ∈ ["src/y.webp"] ↔ last (Str.split "." "x.WEBP") = Some "webp")
   ∧ ("x.WEBP" = "x.WEBP" → "src/x.WEBP" ∉ ["src/y.webp"])
   ∧ ("x.WEBP" = "x.webp.bak" → "src/x.WEBP" ∉ ["src/y.webp"]))
  ∧ ("src/y.webp" ∈ ["src/y.webp"] ↔ last (Str.split "." "y.webp") = Some "webp").
Proof.
  split.
  - apply (webp_extension_filter 1 disk_extensions "src" false ["src/y.webp"]
             {| name := "x.WEBP"; path := "src/x.WEBP" |}).
    + vm_compute. reflexivity.
    + apply list_elem_of_In. vm_compute. tauto.
    + reflexivity.
  - apply (webp_extension_filter 1 disk_extensions "src" false ["src/y.webp"]
             {| name := "y.webp"; path := "src/y.webp" |}).
    + vm_compute. reflexivity.
    + apply list_elem_of_In. vm_compute. tauto.
    + reflexivity.
Defined.

(** C10.  A file whose name is just [webp] passes the filter: the name has
    no dot, splitting it at dots gives the name as its only and last piece,
    and the scan of a folder with such a file lists it. *)
Theorem file_named_webp_is_listed :
  Str.contains "." "webp" = false
  ∧ Str.split "." "webp" = ["webp"]
  ∧ ImageSource.is_input_image {| name := "webp"; path := "src/webp" |} = Ret true
  ∧ os.scandir disk_bare_webp "src" = Ret [{| name := "webp"; path := "src/webp" |}]
  ∧ ImageSource._generate_source_list 1 disk_bare_webp "src" false
    = Some (Ret ["src/webp"]).
Proof. repeat split; vm_compute; reflexivity. Qed.

(* ===================================================================== *)
(** * The writer: claims C1 and C5 *)
(* ===================================================================== *)

(** The numbered files of [world_two] have no gap. *)
Lemma world_two_no_gap :
  ∀ i, 1 ≤ i →
    os.path_exists (disk world_two) (slot "out" (S i)) = true →
    os.path_exists (disk world_two) (slot "out" i) = true.
Proof.
  intros i Hi [nd H]%path_exists_true.
  apply elem_of_list_to_map_2, list_elem_of_In in H. simpl in H.
  destruct H as [[= H _] | [[= H _] | [[= H _] | []]]].
  - symmetry in H. by apply build_image_path_ne_dir in H.
  - change "out/001.png" with (slot "out" 1) in H.
    rewrite !slot_eq in H. apply build_image_path_inj in H. lia.
  - change "out/002.png" with (slot "out" 2) in H.
    rewrite !slot_eq in H. apply build_image_path_inj in H.
    assert (i = 1) as -> by lia. reflexivity.
Qed.

(** C1 (as the claim states it, at an input where it fails).  In an output
    folder with [001.png] and [003.png] but no [002.png], a writer given two
    images saves the first at [out/002.png] and the second at [out/003.png],
    a path that was there when the writer was made; the image that was there
    is replaced. *)
Lemma writer_overwrites_after_gap :
  ∃ w',
    writer_session "out" [picture 7; picture 8] world_gap
    = Some (Ret ["out/002.png"; "out/003.png"], w')
    ∧ os.path_exists (disk world_gap) "out/003.png" = true
    ∧ disk world_gap !! "out/003.png" = Some (File (Some (picture 3)))
    ∧ disk w' !! "out/003.png" = Some (File (Some (picture 8))).
Proof. eexists. repeat split; vm_compute; reflexivity. Qed.

(** C1 (amended).  In the life of one writer no two calls of [write_image]
    save at the same path, and the first call saves at a path that did not
    exist when the writer was made.  When the numbered files of the output
    folder have no gap at that time (with a file of number [i + 1] there is
    the file of number [i], from 1 on), no call saves at a path that existed
    then.  The paths of the calls are where the images are in the end: the
    image of the [i]-th call is on disk at the [i]-th path, and apart from
    these paths and the output folder itself the disk is as it was; so
    without a gap everything that was on disk is still there, unchanged. *)
Theorem writer_targets_fresh_slots :
  ∀ (output_path : string) (images : list Image) (w w' : World)
    (targets : list string),
    writer_session output_path images w = Some (Ret targets, w') →
    NoDup targets
    ∧ length targets = length images
    ∧ (∀ i image, images !! i = Some image →
         ∃ t, targets !! i = Some t
              ∧ disk w' !! t = Some (File (Some image)))
    ∧ (∀ q, q ∉ targets → q ≠ output_path → disk w' !! q = disk w !! q)
    ∧ (∀ t, head targets = Some t → os.path_exists (disk w) t = false)
    ∧ ((∀ i, 1 ≤ i →
          os.path_exists (disk w) (slot output_path (S i)) = true →
          os.path_exists (disk w) (slot output_path i) = true) →
       (∀ t, t ∈ targets → os.path_exists (disk w) t = false)
       ∧ (∀ q, os.path_exists (disk w) q = true →
            disk w' !! q = disk w !! q)).
Proof.
  intros out images w w' targets
    (k & _ & Hk & Hbelow & Hfree & Hwrites)%writer_session_split.
  destruct (write_all_run _ _ _ _ _ _ Hwrites)
    as (-> & Hsaved & Hother & _).
  simpl in Hother.
  split; [apply slots_NoDup |].
  split; [by rewrite length_fmap, length_seq |].
  split; [| split; [| split]].
  - intros i image Hi. exists (slot out (k + i)). split; [| by eapply Hsaved].
    rewrite list_lookup_fmap, lookup_seq_lt; [done |].
    by eapply lookup_lt_Some.
  - intros q Hq Hout. rewrite (Hother q Hq). unfold after_mkdir.
    destruct (os.path_exists (disk w) out); [done |].
    simpl. by rewrite lookup_insert_ne.
  - destruct images as [|image images]; simpl; [done |]. by intros t [= <-].
  - intros Hclosed.
    assert (∀ n, os.path_exists (disk w) (slot out (k + n)) = false) as Habove.
    { induction n as [|n IH]; [by rewrite Nat.add_0_r |].
      destruct (os.path_exists (disk w) (slot out (k + S n))) eqn:E; [| done].
      rewrite Nat.add_succ_r in E. apply Hclosed in E; [| lia]. congruence. }
    assert (∀ t, t ∈ slot out <$> seq k (length images) →
              os.path_exists (disk w) t = false) as Hfresh.
    { intros t (i & -> & Hi%elem_of_seq)%list_elem_of_fmap.
      replace i with (k + (i - k)) by lia. apply Habove. }
    split; [done |].
    intros q Hq. rewrite Hother.
    + unfold after_mkdir.
      destruct (os.path_exists (disk w) out) eqn:E; [done |].
      simpl. rewrite lookup_insert_ne; [done |]. intros Heq. subst q.
      congruence.
    + intros Hin. apply Hfresh in Hin. congruence.
Qed.

Lemma writer_targets_fresh_slots_witness :
  NoDup ["out/003.png"; "out/004.png"]
  ∧ (∀ i image, [picture 7; picture 8] !! i = Some image →
       ∃ t, ["out/003.png"; "out/004.png"] !! i = Some t
            ∧ (<["out/004.png" := File (Some (picture 8))]>
                 (<["out/003.png" := File (Some (picture 7))]>
                    (disk world_two))) !! t = Some (File (Some image)))
  ∧ (∀ t, t ∈ ["out/003.png"; "out/004.png"] →
       os.path_exists (disk world_two) t = false)
  ∧ (∀ q, os.path_exists (disk world_two) q = true →
       (<["out/004.png" := File (Some (picture 8))]>
          (<["out/003.png" := File (Some (picture 7))]>
             (disk world_two))) !! q = disk world_two !! q).
Proof.
  destruct (writer_targets_fresh_slots "out" [picture 7; picture 8] world_two
              {| disk := <["out/004.png" := File (Some (picture 8))]>
                           (<["out/003.png" := File (Some (picture 7))]>
                              (disk world_two));
                 stdout := ["Initial image count is 2.";
                            "Saved image at out/003.png";
                            "Saved image at out/004.png"] |}
              ["out/003.png"; "out/004.png"])
    as (Hnodup & _ & Hsaved & _ & _ & Hall).
  - vm_compute. reflexivity.
  - destruct (Hall world_two_no_gap) as [Hfresh Hkept].
    split; [exact Hnodup |]. split; [exact Hsaved |].
    split; [exact Hfresh | exact Hkept].
Defined.

(** C5.  Making a writer for an output directory that exists changes
    nothing on disk.  Its counter is the first number from 1 on for which
    the directory has no file [NNN.png], where [NNN] is the number in
    decimal, filled with zeros to three digits: the files of all smaller
    numbers exist, the file of the counter does not.  The count of images it
    reports is the counter minus one. *)
Theorem writer_starts_at_first_free_index :
  ∀ (output_path : string) (w : World),
    os.path_exists (disk w) output_path = true →
    ∃ k,
      ImageWriter.__init__ output_path w
      = Some (Ret {| ImageWriter._output_path := output_path;
                     ImageWriter._image_count := k |},
              {| disk := disk w;
                 stdout := stdout w
                           ++ ["Initial image count is "
                               +:+ Str.of_nat (k - 1) +:+ "."] |})
      ∧ 1 ≤ k
      ∧ (∀ i, 1 ≤ i < k →
           os.path_exists (disk w)
             (Path.join output_path (Str.format_03d i +:+ ".png")) = true)
      ∧ os.path_exists (disk w)
          (Path.join output_path (Str.format_03d k +:+ ".png")) = false
      ∧ (∀ i, Str.to_nat (Str.format_03d i) = Some i
              ∧ String.length (Str.format_03d i)
                = 3 `max` String.length (Str.of_nat i)).
Proof.
  intros out w Hout.
  destruct (ImageWriter_init_run out w)
    as [(Hmissing & _) | (_ & k & Hrun & Hk & Hbelow & Hfree)];
    [congruence |].
  unfold after_mkdir in *. rewrite Hout in *.
  exists k. split; [done |]. split; [done |]. split; [done |].
  split; [done |].
  intros i. split; [apply to_nat_format_03d | apply format_03d_length].
Qed.

Lemma writer_starts_at_first_free_index_witness :
  ImageWriter.__init__ "out" world_two
  = Some (Ret {| ImageWriter._output_path := "out";
                 ImageWriter._image_count := 3 |},
          {| disk := disk world_two;
             stdout := ["Initial image count is 2."] |})
  ∧ os.path_exists (disk world_two) "out/001.png" = true
  ∧ os.path_exists (disk world_two) "out/002.png" = true
  ∧ os.path_exists (disk world_two) "out/003.png" = false.
Proof.
  destruct (writer_starts_at_first_free_index "out" world_two)
    as (k & Hinit & Hk & Hbelow & Hfree & _).
  - reflexivity.
  - assert (k = 3) as ->.
    { assert (ImageWriter.__init__ "out" world_two
              = Some (Ret {| ImageWriter._output_path := "out";
                             ImageWriter._image_count := 3 |},
                      {| disk := disk world_two;
                         stdout := ["Initial image count is 2."] |})) as E
        by (vm_compute; reflexivity).
      rewrite E in Hinit. by injection Hinit as <-. }
    split; [exact Hinit |].
    split; [apply (Hbelow 1); lia |].
    split; [apply (Hbelow 2); lia | exact Hfree].
Defined.

(* ===================================================================== *)
(** * The source and the run: claims C6, C7, C8, C9 *)
(* ===================================================================== *)

(** C6.  Take a run that comes to an end, well or with an exception, and
    the source files its scan had matched, all of them on disk when the run
    began; a run that ends well has such a list.  With the destructive flag
    set and the run ended well, none of them exists any more.  With the flag
    unset each of them is on disk as it was, however the run ended. *)
Theorem destructive_flag_decides_sources :
  ∀ (depth : nat) (args : Namespace) (w : World) (r : res unit) (w' : World),
    main depth args w = Some (r, w') →
    (r = Ret tt →
     ∃ source_list,
       ImageSource._generate_source_list depth (disk w) (source_path args)
         (recursive args) = Some (Ret source_list))
    ∧ ∀ source_list,
        ImageSource._generate_source_list depth (disk w) (source_path args)
          (recursive args) = Some (Ret source_list) →
        (∀ p, p ∈ source_list → os.path_exists (disk w) p = true)
        ∧ (destructive args = true → r = Ret tt →
           ∀ p, p ∈ source_list → os.path_exists (disk w') p = false)
        ∧ (destructive args = false →
           ∀ p, p ∈ source_list → disk w' !! p = disk w !! p).
Proof.
  intros depth args w r w' Hrun. split.
  - intros ->.
    destruct (main_run _ _ _ _ Hrun) as (l & _ & Hscan & _). eauto.
  - intros l Hscan.
    pose proof (generate_source_list_Ret _ _ _ _ _ Hscan) as (_ & _ & Hl).
    destruct (source_list_facts _ _ _ Hl) as (_ & Hkeys & Hdisj).
    split; [| split].
    + intros p Hp. by apply path_exists_true, Hkeys.
    + intros Hd -> p Hp.
      destruct (main_run _ _ _ _ Hrun)
        as (l' & _ & Hscan' & _ & _ & _ & Hsrc & _).
      rewrite Hscan in Hscan'. injection Hscan' as <-.
      apply path_exists_false. rewrite (Hsrc p Hp). by rewrite Hd.
    + intros Hd p Hp.
      apply (main_nondestructive_frame _ _ _ _ _ Hd Hrun); [by apply Hkeys |].
      intros i. by apply Hdisj.
Qed.

Lemma destructive_flag_decides_sources_witness :
  os.path_exists (disk world_resume) "src/new.webp" = true
  ∧ os.path_exists (disk world_resume_end) "src/new.webp" = false
  ∧ disk world_scenario_end !! "src/a.webp" = disk world_scenario !! "src/a.webp"
  ∧ main 1 scenario_args world_broken
    = Some (Exc UnidentifiedImageError,
            {| disk := <["out" := Dir]> (disk world_broken);
               stdout := ["Found 2 input images.";
                          "Path out do not exists. Created path.";
                          "Initial image count is 0."] |})
  ∧ (<["out" := Dir]> (disk world_broken)) !! "src/good.webp"
    = disk world_broken !! "src/good.webp".
Proof.
  destruct (destructive_flag_decides_sources 1 resume_args world_resume
              (Ret tt) world_resume_end) as [_ H1].
  { vm_compute. reflexivity. }
  destruct (H1 ["src/new.webp"]) as (Hbefore & Hgone & _).
  { vm_compute. reflexivity. }
  destruct (destructive_flag_decides_sources 1 scenario_args world_scenario
              (Ret tt) world_scenario_end) as [_ H2].
  { vm_compute. reflexivity. }
  destruct (H2 ["src/a.webp"; "src/b.webp"]) as (_ & _ & Hkept).
  { vm_compute. reflexivity. }
  assert (main 1 scenario_args world_broken
          = Some (Exc UnidentifiedImageError,
                  {| disk := <["out" := Dir]> (disk world_broken);
                     stdout := ["Found 2 input images.";
                                "Path out do not exists. Created path.";
                                "Initial image count is 0."] |})) as Hbroken
    by (vm_compute; reflexivity).
  destruct (destructive_flag_decides_sources 1 scenario_args world_broken
              _ _ Hbroken) as [_ H3].
  destruct (H3 ["src/good.webp"; "src/bad.webp"]) as (_ & _ & Hkept').
  { vm_compute. reflexivity. }
  split; [apply Hbefore, list_elem_of_In; simpl; tauto |].
  split; [apply Hgone; [reflexivity | reflexivity |
                        apply list_elem_of_In; simpl; tauto] |].
  split; [apply Hkept; [reflexivity | apply list_elem_of_In; simpl; tauto] |].
  split; [exact Hbroken |].
  apply Hkept'; [reflexivity | apply list_elem_of_In; simpl; tauto].
Defined.

(** C7.  A pull in destructive mode looks at the last path of the list.
    When the file there cannot be opened as an image, the pull raises that
    error and the world is as before: the file has not been removed.  When it
    can, the pull returns the image in RGB and the file is removed.  So a pull
    that changes the disk is one whose image was read. *)
Theorem destructive_pull_removes_after_decode :
  ∀ (self : ImageSource.t) (w : World) (next_path : string),
    ImageSource._destructive self = true →
    last (ImageSource._source_list self) = Some next_path →
    (∀ e, Image_open (disk w) next_path = Exc e →
       ImageSource.__next__ self w = Some (Exc e, w))
    ∧ (∀ image, Image_open (disk w) next_path = Ret image →
         ImageSource.__next__ self w
         = Some (Ret (convert_RGB image,
                      {| ImageSource._source_list :=
                           removelast (ImageSource._source_list self);
                         ImageSource._destructive := true |}),
                 {| disk := delete next_path (disk w); stdout := stdout w |}))
    ∧ (∀ r w', ImageSource.__next__ self w = Some (r, w') →
         disk w' ≠ disk w →
         ∃ image, Image_open (disk w) next_path = Ret image
                  ∧ r = Ret (convert_RGB image,
                             {| ImageSource._source_list :=
                                  removelast (ImageSource._source_list self);
                                ImageSource._destructive := true |})).
Proof.
  intros self w p Hd Hlast.
  rewrite ImageSource_next_run, Hlast, Hd.
  split; [| split].
  - by intros e ->.
  - by intros image ->.
  - intros r w'. destruct (Image_open (disk w) p) as [image|e].
    + intros [= <- <-] _. eauto.
    + by intros [= <- <-].
Qed.

Lemma destructive_pull_removes_after_decode_witness :
  ImageSource.__next__
    {| ImageSource._source_list := ["src/good.webp"; "src/bad.webp"];
       ImageSource._destructive := true |} world_broken
  = Some (Exc UnidentifiedImageError, world_broken)
  ∧ ImageSource.__next__
      {| ImageSource._source_list := ["src/bad.webp"; "src/good.webp"];
         ImageSource._destructive := true |} world_broken
    = Some (Ret (convert_RGB (picture 4),
                 {| ImageSource._source_list := ["src/bad.webp"];
                    ImageSource._destructive := true |}),
            {| disk := delete "src/good.webp" (disk world_broken);
               stdout := [] |}).
Proof.
  split.
  - apply (destructive_pull_removes_after_decode
             {| ImageSource._source_list := ["src/good.webp"; "src/bad.webp"];
                ImageSource._destructive := true |} world_broken "src/bad.webp");
      reflexivity.
  - apply (destructive_pull_removes_after_decode
             {| ImageSource._source_list := ["src/bad.webp"; "src/good.webp"];
                ImageSource._destructive := true |} world_broken "src/good.webp");
      reflexivity.
Defined.

(** C8.  Making a source for a path that does not exist raises [OSError]
    and leaves the world as it was, at any depth allowed to the scan, depth
    0 included: the scan has not begun and nothing was printed.  For a path
    that exists the outcome is that of the scan of that path: no result when
    the scan has none, its error when it raises, and otherwise the source
    with the list of the scan, after the count of the list was printed. *)
Theorem source_path_must_exist :
  ∀ (depth : nat) (source_path : string) (destructive recursive : bool)
    (w : World),
    (os.path_exists (disk w) source_path = false →
     ImageSource.__init__ depth source_path destructive recursive w
     = Some (Exc (OSError ("Source path " +:+ source_path
                           +:+ " do not exist.")), w))
    ∧ (os.path_exists (disk w) source_path = true →
       ImageSource.__init__ depth source_path destructive recursive w
       = match ImageSource._generate_source_list depth (disk w)
                 source_path recursive with
         | None => None
         | Some (Exc e) => Some (Exc e, w)
         | Some (Ret source_list) =>
             Some (Ret {| ImageSource._source_list := source_list;
                          ImageSource._destructive := destructive |},
                   {| disk := disk w;
                      stdout := stdout w
                                ++ ["Found "
                                    +:+ Str.of_nat (length source_list)
                                    +:+ " input images."] |})
         end).
Proof.
  intros depth source_path destructive recursive w.
  rewrite ImageSource_init_run. split; by intros ->.
Qed.

Lemma source_path_must_exist_witness :
  ImageSource.__init__ 0 "nowhere" true true world_scenario
  = Some (Exc (OSError "Source path nowhere do not exist."), world_scenario)
  ∧ ImageSource.__init__ 1 "src" false false world_scenario
    = Some (Ret {| ImageSource._source_list := ["src/a.webp"; "src/b.webp"];
                   ImageSource._destructive := false |},
            {| disk := disk world_scenario;
               stdout := ["Found 2 input images."] |}).
Proof.
  split.
  - apply (source_path_must_exist 0 "nowhere" true true world_scenario).
    reflexivity.
  - destruct (source_path_must_exist 1 "src" false false world_scenario)
      as [_ Hscan].
    rewrite Hscan; [| reflexivity]. vm_compute. reflexivity.
Defined.

(** C9.  A run without recursion that ends well has read every file of the
    source directory whose name ends in [.webp] (or is [webp]) exactly once
    and saved its image, in RGB, in a slot of its own: the slots are
    [length source_list] many, all different, counted from the writer's
    first free number, and the image in slot [k + i] is the one of the
    [i]-th path from the end of the list.  Paths that are neither a source,
    nor one of these slots, nor the output folder are as before.  In the
    example, with [a.webp], [b.webp] and [readme.txt] in [src] and nothing in
    [out], the run ends with exactly [001.png] and [002.png] in [out], holding
    the two images, with both [.webp] files and [readme.txt] as they were,
    and with [src] holding the three files it had. *)
Theorem every_input_written_once :
  (∀ (depth : nat) (args : Namespace) (w w' : World),
     recursive args = false →
     main depth args w = Some (Ret tt, w') →
     ∃ (source_list : list string) (k : nat),
       source_list = path <$> filter (listed (disk w))
                                     (os.entries (disk w) (source_path args))
       ∧ NoDup source_list
       ∧ NoDup (slot (output_path args) <$> seq k (length source_list))
       ∧ length (slot (output_path args) <$> seq k (length source_list))
         = length source_list
       ∧ (∀ i, i < length source_list →
            ∃ p image,
              reverse source_list !! i = Some p
              ∧ disk w !! p = Some (File (Some image))
              ∧ disk w' !! slot (output_path args) (k + i)
                = Some (File (Some (convert_RGB image))))
       ∧ (∀ q, q ∉ source_list → q ≠ output_path args →
            q ∉ slot (output_path args) <$> seq k (length source_list) →
            disk w' !! q = disk w !! q))
  ∧ (∀ depth,
       main (S depth) scenario_args world_scenario
       = Some (Ret tt, world_scenario_end))
  ∧ os.entries (disk world_scenario_end) "out"
    = [{| name := "001.png"; path := "out/001.png" |};
       {| name := "002.png"; path := "out/002.png" |}]
  ∧ os.entries (disk world_scenario_end) "src"
    = os.entries (disk world_scenario) "src"
  ∧ (∀ q, q ≠ "out/001.png" → q ≠ "out/002.png" →
       disk world_scenario_end !! q = disk world_scenario !! q).
Proof.
  split; [| split; [| split; [| split]]].
  - intros depth args w w' Hrec Hrun.
    destruct (main_run _ _ _ _ Hrun)
      as (l & k & _ & Hl & Hnd & Hsaved & _ & Hother).
    exists l, k. split; [done |]. split; [done |].
    split; [apply slots_NoDup |].
    split; [by rewrite length_fmap, length_seq |].
    split.
    + intros i Hi.
      destruct (lookup_lt_is_Some_2 (reverse l) i) as [p Hp].
      { by rewrite length_reverse. }
      destruct (Hsaved i p Hp) as (image & ? & ?). eauto.
    + intros q Hq Hout Hslots. apply Hother; [done | done |].
      intros i Hi ->. apply Hslots, list_elem_of_fmap.
      exists (k + i). split; [done |]. apply elem_of_seq. lia.
  - intros depth. rewrite main_depth by done. vm_compute. reflexivity.
  - vm_compute. reflexivity.
  - vm_compute. reflexivity.
  - intros q H1 H2.
    assert (disk world_scenario_end
            = <["out/001.png" := File (Some (convert_RGB (picture 2)))]>
                (<["out/002.png" := File (Some (convert_RGB (picture 1)))]>
                   (disk world_scenario))) as ->
      by (vm_compute; reflexivity).
    by rewrite !lookup_insert_ne.
Qed.

Lemma every_input_written_once_witness :
  ∃ k,
    NoDup (slot "out" <$> seq k 2)
    ∧ (∀ i, i < 2 →
         ∃ p image,
           reverse ["src/a.webp"; "src/b.webp"] !! i = Some p
           ∧ disk world_scenario !! p = Some (File (Some image))
           ∧ disk world_scenario_end !! slot "out" (k + i)
             = Some (File (Some (convert_RGB image)))).
Proof.
  destruct every_input_written_once as [Hgeneral _].
  destruct (Hgeneral 1 scenario_args world_scenario world_scenario_end)
    as (l & k & Hl & _ & Hslots & _ & Hsaved & _).
  - reflexivity.
  - vm_compute. reflexivity.
  - assert (l = ["src/a.webp"; "src/b.webp"]) as ->.
    { rewrite Hl. vm_compute. reflexivity. }
    exists k. split; [exact Hslots | exact Hsaved].
Defined.

(* ===================================================================== *)
(** * More on the writer *)
(* ===================================================================== *)






(** A row of writes that goes well puts the images in the slots that follow
    one another from the writer's counter, the [i]-th image in the [i]-th of
    them; a later write does not disturb an earlier one.  No other path
    changes, and one line is printed per write, in order. *)
Theorem writes_fill_consecutive_slots :
  ∀ (output_path : string) (k : nat) (images : list Image) (w w' : World)
    (targets : list string),
    write_all {| ImageWriter._output_path := output_path;
                 ImageWriter._image_count := k |} images w
    = Some (Ret targets, w') →
    targets = slot output_path <$> seq k (length images)
    ∧ (∀ i image, images !! i = Some image →
         disk w' !! slot output_path (k + i) = Some (File (Some image)))
    ∧ (∀ q, q ∉ targets → disk w' !! q = disk w !! q)
    ∧ stdout w' = stdout w ++ ((λ t, "Saved image at " +:+ t) <$> targets).
Proof. intros out k images w w' targets. apply write_all_run. Qed.

Lemma writes_fill_consecutive_slots_witness :
  ∃ w',
    (∀ i image, [picture 7; picture 8] !! i = Some image →
       disk w' !! slot "out" (3 + i) = Some (File (Some image)))
    ∧ (∀ q, q ∉ ["out/003.png"; "out/004.png"] →
         disk w' !! q = disk world_two !! q)
    ∧ stdout w' = ["Saved image at out/003.png"; "Saved image at out/004.png"].
Proof.
  eexists.
  refine (proj2 (writes_fill_consecutive_slots "out" 3 [picture 7; picture 8]
                   world_two _ ["out/003.png"; "out/004.png"] _)).
  vm_compute. reflexivity.
Defined.

(** Numbering goes on where it stopped.  When the numbered files of the
    output folder have no gap and a writer has saved [n] images from its
    counter [k] on, the next writer made for that folder starts at [k + n],
    and reports [k + n - 1] images. *)
Theorem next_writer_resumes_numbering :
  ∀ (output_path : string) (images : list Image) (w w' : World)
    (targets : list string),
    writer_session output_path images w = Some (Ret targets, w') →
    (∀ i, 1 ≤ i →
       os.path_exists (disk w) (slot output_path (S i)) = true →
       os.path_exists (disk w) (slot output_path i) = true) →
    ∃ k,
      targets = slot output_path <$> seq k (length images)
      ∧ ImageWriter.__init__ output_path w'
        = Some (Ret {| ImageWriter._output_path := output_path;
                       ImageWriter._image_count := k + length images |},
                {| disk := disk w';
                   stdout := stdout w'
                             ++ ["Initial image count is "
                                 +:+ Str.of_nat (k + length images - 1)
                                 +:+ "."] |}).
Proof.
  intros out images w w' targets
    (k & _ & Hk & Hbelow & Hfree & Hwrites)%writer_session_split Hclosed.
  destruct (write_all_run _ _ _ _ _ _ Hwrites)
    as (Htargets & Hsaved & Hother & _).
  simpl in Hother. exists k. split; [done |].
  assert (∀ n, os.path_exists (disk w) (slot out (k + n)) = false) as Habove.
  { induction n as [|n IH]; [by rewrite Nat.add_0_r |].
    destruct (os.path_exists (disk w) (slot out (k + S n))) eqn:E; [| done].
    rewrite Nat.add_succ_r in E. apply Hclosed in E; [| lia]. congruence. }
  assert (∀ q, is_Some (disk (after_mkdir out w) !! q) → is_Some (disk w' !! q))
    as Hkept.
  { intros q Hq. destruct (decide (q ∈ targets)) as [Hin | Hnotin].
    - rewrite Htargets in Hin.
      apply list_elem_of_fmap in Hin as (i & -> & Hi%elem_of_seq).
      destruct (lookup_lt_is_Some_2 images (i - k)) as [image Himage]; [lia |].
      apply Hsaved in Himage. replace (k + (i - k)) with i in Himage by lia.
      rewrite Himage. eauto.
    - by rewrite (Hother q Hnotin). }
  assert (os.path_exists (disk w') out = true) as Hout.
  { apply path_exists_true, Hkept. unfold after_mkdir.
    destruct (os.path_exists (disk w) out) eqn:E.
    - by apply path_exists_true.
    - simpl. rewrite lookup_insert_eq. eauto. }
  destruct (ImageWriter_init_run out w')
    as [(Hmissing & _) | (_ & k' & Hinit & Hk' & Hbelow' & Hfree')];
    [congruence |].
  unfold after_mkdir in Hinit, Hbelow', Hfree'. rewrite Hout in *.
  assert (k' = k + length images) as ->; [| exact Hinit].
  rewrite <- slot_eq in Hfree'.
  apply (first_free_unique (disk w') out); try done; try lia.
  - intros i Hi. apply path_exists_true.
    destruct (decide (i < k)) as [Hlt | Hge].
    + apply Hkept. apply path_exists_true.
      rewrite after_mkdir_slot. apply Hbelow. lia.
    + destruct (lookup_lt_is_Some_2 images (i - k)) as [image Himage]; [lia |].
      apply Hsaved in Himage. replace (k + (i - k)) with i in Himage by lia.
      rewrite Himage. eauto.
  - apply path_exists_false. rewrite Hother.
    + apply path_exists_false. rewrite after_mkdir_slot. apply Habove.
    + rewrite Htargets.
      intros (i & Heq & Hi%elem_of_seq)%list_elem_of_fmap.
      rewrite !slot_eq in Heq. apply build_image_path_inj in Heq. lia.
Qed.

Lemma next_writer_resumes_numbering_witness :
  ∃ k w',
    ["out/003.png"; "out/004.png"] = slot "out" <$> seq k 2
    ∧ ImageWriter.__init__ "out" w'
      = Some (Ret {| ImageWriter._output_path := "out";
                     ImageWriter._image_count := k + 2 |},
              {| disk := disk w';
                 stdout := stdout w'
                           ++ ["Initial image count is "
                               +:+ Str.of_nat (k + 2 - 1) +:+ "."] |}).
Proof.
  destruct (next_writer_resumes_numbering "out" [picture 7; picture 8]
              world_two
              {| disk := <["out/004.png" := File (Some (picture 8))]>
                           (<["out/003.png" := File (Some (picture 7))]>
                              (disk world_two));
                 stdout := ["Initial image count is 2.";
                            "Saved image at out/003.png";
                            "Saved image at out/004.png"] |}
              ["out/003.png"; "out/004.png"])
    as (k & Hk & Hinit).
  - vm_compute. reflexivity.
  - exact world_two_no_gap.
  - eexists k, _. split; [exact Hk | exact Hinit].
Defined.

(* ===================================================================== *)
(** * More on the scan *)
(* ===================================================================== *)

(** The test of the extension never raises, and it accepts a name exactly
    when the name is [webp] or ends in [.webp]: so [a.b.webp] and the hidden
    [.webp] are input images, [webp.png] and [awebp] are not. *)
Theorem input_image_names :
  ∀ file : DirEntry,
    (∃ b, ImageSource.is_input_image file = Ret b)
    ∧ (ImageSource.is_input_image file = Ret true
       ↔ name file = "webp" ∨ ∃ stem, name file = stem +:+ ".webp").
Proof.
  intros file. rewrite is_input_image_eq. split; [eauto |].
  split.
  - intros [= H%bool_decide_eq_true]. by apply split_last_iff in H as [_ ?].
  - intros H. f_equal. apply bool_decide_eq_true, split_last_iff. done.
Qed.

(** The recursive flag adds nothing: whenever the scan with recursion
    returns a list, the scan without recursion returns the same list. *)
Theorem recursive_flag_adds_nothing :
  ∀ (depth : nat) (d : gmap string node) (source_path : string)
    (source_list : list string),
    ImageSource._generate_source_list depth d source_path true
    = Some (Ret source_list) →
    ImageSource._generate_source_list depth d source_path false
    = Some (Ret source_list).
Proof.
  intros depth d p l H.
  destruct depth as [|depth]; [done |].
  apply generate_source_list_Ret in H as (Hdir & _ & ->).
  apply generate_source_list_returns; [done |].
  apply Forall_forall. by intros file _.
Qed.

Lemma recursive_flag_adds_nothing_witness :
  ImageSource._generate_source_list 1 disk_hidden "src" false
  = Some (Ret ["src/a.webp"]).
Proof.
  apply (recursive_flag_adds_nothing 1 disk_hidden "src" ["src/a.webp"]).
  vm_compute. reflexivity.
Defined.

(** Subdirectories whose names start with a dot are passed over.  When
    every subdirectory of the source directory is of that kind, the scan
    with recursion returns at once, with the input images that are directly
    in the source directory, in the order of the listing; nothing below a
    hidden directory is listed. *)
Theorem hidden_directories_are_skipped :
  ∀ (depth : nat) (d : gmap string node) (source_path : string),
    os.path_isdir d source_path = true →
    (∀ file, file ∈ os.entries d source_path →
       os.path_isdir d (path file) = true →
       Str.startswith "." (name file) = true) →
    ImageSource._generate_source_list (S depth) d source_path true
    = Some (Ret (path <$> filter (listed d) (os.entries d source_path))).
Proof.
  intros depth d p Hdir Hhidden.
  apply generate_source_list_returns; [done |].
  apply Forall_forall. intros file Hin. unfold enterable. simpl.
  destruct (os.path_isdir d (path file)) eqn:E; [| done].
  by rewrite (Hhidden file Hin E).
Qed.

Lemma hidden_directories_are_skipped_witness :
  ImageSource._generate_source_list 1 disk_hidden "src" true
  = Some (Ret ["src/a.webp"]).
Proof.
  rewrite (hidden_directories_are_skipped 0 disk_hidden "src").
  - vm_compute. reflexivity.
  - reflexivity.
  - assert (os.entries disk_hidden "src"
            = [{| name := "a.webp"; path := "src/a.webp" |};
               {| name := ".cache"; path := "src/.cache" |}]) as ->
      by (vm_compute; reflexivity).
    intros file [-> | [-> | []%elem_of_nil]%elem_of_cons]%elem_of_cons;
      vm_compute; congruence.
Defined.

(** The list of a scan holds no path twice, and each of its paths is
    [os.path.join(source_path, name)] for a name of one component, is on
    disk, and is a file there. *)
Theorem source_list_of_direct_files :
  ∀ (depth : nat) (d : gmap string node) (source_path : string)
    (recursive : bool) (source_list : list string),
    ImageSource._generate_source_list depth d source_path recursive
    = Some (Ret source_list) →
    NoDup source_list
    ∧ ∀ q, q ∈ source_list →
        ∃ nm content,
          q = Path.join source_path nm
          ∧ nm ≠ ""
          ∧ Str.contains Path.sep nm = false
          ∧ d !! q = Some (File content).
Proof.
  intros depth d p r l (_ & _ & Hl)%generate_source_list_Ret.
  destruct (source_list_facts _ _ _ Hl) as (Hnd & _ & _).
  split; [done |]. rewrite Hl.
  intros q (file & -> & [Hlisted Hin]%list_elem_of_filter)%list_elem_of_fmap.
  pose proof Hin as [[nd Hnd'] Hchild]%elem_of_entries.
  pose proof (child_name_join _ _ _ Hchild) as Hjoin.
  apply child_name_Some in Hchild as (_ & Hne & Hsep).
  apply andb_prop_elim in Hlisted as [Hfile _].
  unfold os.path_isdir in Hfile. rewrite Hnd' in Hfile.
  destruct nd as [content|]; [| done].
  exists (name file), content. done.
Qed.

Lemma source_list_of_direct_files_witness :
  NoDup ["src/a.webp"; "src/b.webp"]
  ∧ ∀ q, q ∈ ["src/a.webp"; "src/b.webp"] →
      ∃ nm content,
        q = Path.join "src" nm
        ∧ nm ≠ ""
        ∧ Str.contains Path.sep nm = false
        ∧ disk world_scenario !! q = Some (File content).
Proof.
  apply (source_list_of_direct_files 1 (disk world_scenario) "src" false).
  vm_compute. reflexivity.
Defined.

(** A writer never aims at a source file: no path in the list of a scan is
    the path of a numbered image, for any output folder and any counter, the
    source folder itself included. *)
Theorem writer_paths_miss_sources :
  ∀ (depth : nat) (d : gmap string node) (source_path : string)
    (recursive : bool) (source_list : list string) (writer : ImageWriter.t),
    ImageSource._generate_source_list depth d source_path recursive
    = Some (Ret source_list) →
    ImageWriter._build_image_path writer ∉ source_list.
Proof.
  intros depth d p r l [out k] (_ & _ & Hl)%generate_source_list_Ret Hin.
  destruct (source_list_facts _ _ _ Hl) as (_ & _ & Hdisj).
  by apply (Hdisj _ out k Hin).
Qed.

Lemma writer_paths_miss_sources_witness :
  ImageWriter._build_image_path
    {| ImageWriter._output_path := "pics"; ImageWriter._image_count := 2 |}
  ∉ ["pics/a.webp"].
Proof.
  apply (writer_paths_miss_sources 1 (disk world_same_folder) "pics" false).
  vm_compute. reflexivity.
Defined.

(** A source path that is a file, not a directory, gets past the test that
    the path exists; it is the listing of the path that raises, with
    [NotADirectoryError] and not with the script's own [OSError], and the
    world is left as it was. *)
Theorem source_init_on_a_file :
  ∀ (depth : nat) (source_path : string) (destructive recursive : bool)
    (w : World) (content : option Image),
    disk w !! source_path = Some (File content) →
    ImageSource.__init__ (S depth) source_path destructive recursive w
    = Some (Exc NotADirectoryError, w).
Proof.
  intros depth p destr r w content Hp.
  rewrite ImageSource_init_run.
  assert (os.path_exists (disk w) p = true) as ->
    by (apply path_exists_true; eauto).
  simpl. unfold os.scandir. by rewrite Hp.
Qed.

Lemma source_init_on_a_file_witness :
  ImageSource.__init__ 1 "src/a.webp" false false world_scenario
  = Some (Exc NotADirectoryError, world_scenario).
Proof.
  apply (source_init_on_a_file 0 "src/a.webp" false false world_scenario
           (Some (picture 1))).
  reflexivity.
Defined.

(* ===================================================================== *)
(** * More on the source and the run *)
(* ===================================================================== *)

Section more_run_facts.
Implicit Types (w : World) (l : list string) (args : Namespace).

Lemma pull_all_S fuel sources w :
  pull_all (S fuel) sources w
  = match ImageSource.__next__ sources w with
    | Some (Ret (image, sources'), w') =>
        (images ← pull_all fuel sources'; mret (image :: images)) w'
    | Some (Exc StopIteration, w') => Some (Ret [], w')
    | Some (Exc e, w') => Some (Exc e, w')
    | None => None
    end.
Proof. reflexivity. Qed.

Lemma Forall2_impl_elem {A B} (P Q : A → B → Prop) (xs : list A) (ys : list B) :
  Forall2 P xs ys → (∀ x y, x ∈ xs → P x y → Q x y) → Forall2 Q xs ys.
Proof.
  induction 1 as [|x y xs ys Hxy _ IH]; intros HPQ; constructor.
  - apply HPQ; [by left | done].
  - apply IH. intros x' y' Hx'. apply HPQ. by right.
Qed.

(** Draining a source whose paths are all different and all hold images. *)
Lemma pull_all_run destr l :
  ∀ images fuel w,
    length l < fuel →
    NoDup l →
    Forall2 (λ p image, disk w !! p = Some (File (Some image))) l images →
    pull_all fuel (ImageSource.mk l destr) w
    = Some (Ret (convert_RGB <$> reverse images),
            if destr
            then {| disk := foldr delete (disk w) l; stdout := stdout w |}
            else w).
Proof.
  induction l as [|p l IH] using rev_ind; intros images fuel w Hfuel Hnd Hall.
  - apply Forall2_nil_inv_l in Hall as ->.
    destruct fuel as [|fuel]; [lia |].
    rewrite pull_all_S, ImageSource_next_run. simpl.
    destruct destr; [by destruct w | done].
  - rewrite length_app in Hfuel. simpl in Hfuel.
    destruct fuel as [|fuel]; [lia |].
    apply Forall2_app_inv_l in Hall as (images' & last_image & Hl & Hp & ->).
    apply Forall2_cons_inv_l in Hp as (image & rest & Himage & Hrest & ->).
    apply Forall2_nil_inv_l in Hrest as ->.
    apply NoDup_app in Hnd as (Hnd & Hpl & _).
    rewrite pull_all_S, ImageSource_next_run. simpl.
    rewrite last_snoc, removelast_last. unfold Image_open. rewrite Himage.
    unfold mbind, Comp_bind.
    rewrite (IH images' fuel); [| lia | done |].
    + rewrite reverse_snoc. simpl.
      destruct destr; [| done]. simpl. by rewrite foldr_snoc.
    + eapply Forall2_impl_elem; [exact Hl |]. simpl.
      intros q image' Hq Hlookup. destruct destr; [| done]. simpl.
      rewrite lookup_delete_ne; [done |].
      intros ->. apply (Hpl q Hq). by apply list_elem_of_singleton.
Qed.

(** The lines a loop that ends well has printed. *)
Lemma for_image_in_stdout destr out l :
  ∀ fuel k w w',
    for_image_in fuel (ImageSource.mk l destr) (ImageWriter.mk out k) w
    = Some (Ret tt, w') →
    stdout w' = stdout w
                ++ ((λ t, "Saved image at " +:+ t)
                      <$> (slot out <$> seq k (length l))).
Proof.
  induction l as [|p l IH] using rev_ind; intros fuel k w w' Hrun.
  - destruct fuel as [|fuel]; [done |].
    rewrite for_image_in_S, ImageSource_next_run in Hrun. simpl in Hrun.
    injection Hrun as <-. simpl. by rewrite app_nil_r.
  - destruct fuel as [|fuel]; [done |].
    rewrite for_image_in_S, ImageSource_next_run in Hrun. simpl in Hrun.
    rewrite last_snoc, removelast_last in Hrun.
    destruct (Image_open (disk w) p) as [image|e] eqn:Hopen.
    + unfold mbind, Comp_bind in Hrun. rewrite write_image_run in Hrun.
      rewrite <- slot_eq in Hrun. simpl in Hrun.
      assert (∀ d1 : gmap string node,
                for_image_in fuel (ImageSource.mk l destr)
                  (ImageWriter.mk out (k + 1))
                  {| disk := <[slot out k := File (Some (convert_RGB image))]> d1;
                     stdout := stdout w ++ ["Saved image at " +:+ slot out k] |}
                = Some (Ret tt, w') →
                stdout w' = stdout w
                            ++ ((λ t, "Saved image at " +:+ t)
                                  <$> (slot out <$> seq k (length (l ++ [p])))))
        as Hgood.
      { intros d1 Hrest. rewrite (IH _ _ _ _ Hrest). simpl.
        rewrite length_app, Nat.add_1_r, Nat.add_1_r. simpl.
        by rewrite <- app_assoc. }
      destruct destr; simpl in Hrun.
      * destruct (os.check_writable _ _) as [[]|e];
          try done; by apply Hgood in Hrun.
      * destruct (os.check_writable _ _) as [[]|e];
          try done; by apply Hgood in Hrun.
    + unfold Image_open in Hopen.
      destruct (disk w !! p) as [[[image|]|]|]; simplify_eq; done.
Qed.

(** A run that ends well, taken apart, with the lines printed before the
    loop. *)
Lemma main_inv_full depth args w w' :
  main depth args w = Some (Ret tt, w') →
  ∃ l k w1,
    ImageSource._generate_source_list depth (disk w) (source_path args)
      (recursive args) = Some (Ret l)
    ∧ disk w1 = (if os.path_exists (disk w) (output_path args) then disk w
                 else <[output_path args := Dir]> (disk w))
    ∧ stdout w1
      = stdout w
        ++ ["Found " +:+ Str.of_nat (length l) +:+ " input images."]
        ++ (if os.path_exists (disk w) (output_path args) then []
            else ["Path " +:+ output_path args
                  +:+ " do not exists. Created path."])
        ++ ["Initial image count is " +:+ Str.of_nat (k - 1) +:+ "."]
    ∧ 1 ≤ k
    ∧ os.path_exists (disk w) (slot (output_path args) k) = false
    ∧ (∀ i, 1 ≤ i < k →
         os.path_exists (disk w) (slot (output_path args) i) = true)
    ∧ for_image_in (S (length l)) (ImageSource.mk l (destructive args))
                   (ImageWriter.mk (output_path args) k) w1
      = Some (Ret tt, w').
Proof.
  unfold main, mbind, Comp_bind at 1. rewrite ImageSource_init_run.
  destruct (os.path_exists (disk w) (source_path args)); [| done].
  destruct (ImageSource._generate_source_list _ _ _ _) as [[l|e]|]; try done.
  unfold Comp_bind at 1.
  match goal with |- context [ImageWriter.__init__ ?o ?w0] =>
    destruct (ImageWriter_init_run o w0)
      as [(_ & e & _ & ->) | (_ & k & -> & Hk & Hbelow & Hfree)]; [done |] end.
  rewrite <- slot_eq, after_mkdir_slot in Hfree. simpl in Hfree.
  intros Hloop. eexists l, k, _. split; [done |].
  split; [| split; [| split; [done | split; [done | split; [| exact Hloop]]]]].
  - simpl. unfold after_mkdir. simpl.
    by destruct (os.path_exists (disk w) (output_path args)).
  - simpl. unfold after_mkdir. simpl.
    destruct (os.path_exists (disk w) (output_path args)); simpl;
      by rewrite <- !app_assoc.
  - intros i Hi. specialize (Hbelow i Hi).
    by rewrite <- slot_eq, after_mkdir_slot in Hbelow.
Qed.

(** A run without recursion comes back, whatever the world. *)
Lemma main_total depth args w :
  recursive args = false → is_Some (main (S depth) args w).
Proof.
  intros Hrec. unfold main, mbind, Comp_bind at 1.
  rewrite ImageSource_init_run, Hrec.
  destruct (os.path_exists (disk w) (source_path args)); [| eauto].
  destruct (os.scandir (disk w) (source_path args)) as [files|e] eqn:Hscan.
  - apply scandir_Ret in Hscan as [Hdir _].
    rewrite generate_source_list_returns;
      [| done | apply Forall_forall; by intros file _].
    unfold Comp_bind at 1.
    match goal with |- context [ImageWriter.__init__ ?o ?w0] =>
      destruct (ImageWriter_init_run o w0)
        as [(_ & e & _ & ->) | (_ & k & -> & _)]; [eauto |] end.
    apply for_image_in_total. simpl. lia.
  - simpl. rewrite Hscan. eauto.
Qed.

End more_run_facts.

(** Draining a source by [list(sources)].  When the paths of its list are
    all different and each holds an image, the pulls return the images in
    RGB, the last path of the list first, and then the source is at its
    end.  Without the destructive flag the world is as before; with it the
    paths of the list are gone from the disk, every other path is as
    before, and nothing is printed. *)
Theorem pulls_go_through_the_list_backwards :
  ∀ (source_list : list string) (destructive : bool) (images : list Image)
    (w : World),
    NoDup source_list →
    Forall2 (λ p image, disk w !! p = Some (File (Some image)))
            source_list images →
    ∃ w',
      pull_all (S (length source_list))
               {| ImageSource._source_list := source_list;
                  ImageSource._destructive := destructive |} w
      = Some (Ret (convert_RGB <$> reverse images), w')
      ∧ stdout w' = stdout w
      ∧ (destructive = false → w' = w)
      ∧ (destructive = true →
         ∀ q, disk w' !! q = if decide (q ∈ source_list) then None
                             else disk w !! q).
Proof.
  intros l destr images w Hnd Hall.
  eexists. split; [apply pull_all_run; [lia | done | done] |].
  destruct destr; simpl.
  - split; [done |]. split; [done |]. intros _ q. case_decide.
    + by apply lookup_foldr_delete.
    + by apply lookup_foldr_delete_not_elem_of.
  - split; [done |]. split; done.
Qed.

Lemma pulls_go_through_the_list_backwards_witness :
  ∃ w',
    pull_all 3 {| ImageSource._source_list := ["src/a.webp"; "src/b.webp"];
                  ImageSource._destructive := true |} world_scenario
    = Some (Ret [convert_RGB (picture 2); convert_RGB (picture 1)], w')
    ∧ disk w' !! "src/a.webp" = None
    ∧ disk w' !! "src/readme.txt" = Some (File None).
Proof.
  destruct (pulls_go_through_the_list_backwards
              ["src/a.webp"; "src/b.webp"] true [picture 1; picture 2]
              world_scenario) as (w' & Hrun & _ & _ & Hdisk).
  - apply NoDup_cons. split; [| apply NoDup_singleton].
    by intros [=]%list_elem_of_singleton.
  - repeat constructor.
  - exists w'. split; [exact Hrun |].
    rewrite !Hdisk by reflexivity. split.
    + rewrite decide_True; [done | by left].
    + rewrite decide_False; [reflexivity |].
      intros [[=] | [[=] | []%elem_of_nil]%elem_of_cons]%elem_of_cons.
Defined.

(** A run on a source path that does not exist raises the [OSError] of
    [ImageSource] and leaves the world as it was, at any depth allowed to
    the scan: the output folder is not made and nothing is printed. *)
Theorem run_without_source_folder :
  ∀ (depth : nat) (args : Namespace) (w : World),
    os.path_exists (disk w) (source_path args) = false →
    main depth args w
    = Some (Exc (OSError ("Source path " +:+ source_path args
                          +:+ " do not exist.")), w).
Proof.
  intros depth args w Hsrc.
  unfold main, mbind, Comp_bind. by rewrite ImageSource_init_run, Hsrc.
Qed.

Lemma run_without_source_folder_witness :
  main 0 {| source_path := "nowhere"; output_path := "fresh";
            recursive := true; destructive := true |} world_scenario
  = Some (Exc (OSError "Source path nowhere do not exist."), world_scenario).
Proof.
  apply (run_without_source_folder 0
           {| source_path := "nowhere"; output_path := "fresh";
              recursive := true; destructive := true |} world_scenario).
  reflexivity.
Defined.

(** A run without recursion always comes to an end, with a result or with
    an exception, at every depth of at least one call allowed to the scan,
    and the depth makes no difference to how it ends. *)
Theorem run_without_recursion_ends :
  ∀ (depth : nat) (args : Namespace) (w : World),
    recursive args = false →
    ∃ r w',
      main (S depth) args w = Some (r, w')
      ∧ main 1 args w = Some (r, w').
Proof.
  intros depth args w Hrec.
  destruct (main_total depth args w Hrec) as [[r w'] Hrun].
  exists r, w'. split; [done |]. by rewrite <- (main_depth args w depth).
Qed.

Lemma run_without_recursion_ends_witness :
  ∃ r w',
    main 8 scenario_args world_broken = Some (r, w')
    ∧ main 1 scenario_args world_broken = Some (r, w').
Proof.
  apply (run_without_recursion_ends 7 scenario_args world_broken).
  reflexivity.
Defined.

(** What a run that ends well has printed, line by line: the count of the
    input images found, then the note that the output folder was made when
    it had not existed, then the count of the images already there, which is
    the writer's first counter minus one, then one line for each image saved,
    with the paths of the slots from that counter on, in order. *)
Theorem run_prints_its_steps :
  ∀ (depth : nat) (args : Namespace) (w w' : World),
    main depth args w = Some (Ret tt, w') →
    ∃ (source_list : list string) (k : nat),
      ImageSource._generate_source_list depth (disk w) (source_path args)
        (recursive args) = Some (Ret source_list)
      ∧ 1 ≤ k
      ∧ os.path_exists (disk w) (slot (output_path args) k) = false
      ∧ (∀ i, 1 ≤ i < k →
           os.path_exists (disk w) (slot (output_path args) i) = true)
      ∧ stdout w'
        = stdout w
          ++ ["Found " +:+ Str.of_nat (length source_list)
              +:+ " input images."]
          ++ (if os.path_exists (disk w) (output_path args) then []
              else ["Path " +:+ output_path args
                    +:+ " do not exists. Created path."])
          ++ ["Initial image count is " +:+ Str.of_nat (k - 1) +:+ "."]
          ++ ((λ i, "Saved image at " +:+ slot (output_path args) i)
                <$> seq k (length source_list)).
Proof.
  intros depth args w w'
    (l & k & w1 & Hscan & _ & Hw1 & Hk & Hfree & Hbelow & Hloop)%main_inv_full.
  exists l, k. split; [done |]. split; [done |]. split; [done |].
  split; [done |].
  rewrite (for_image_in_stdout _ _ _ _ _ _ _ Hloop), Hw1.
  rewrite <- list_fmap_compose. by rewrite <- !app_assoc.
Qed.

Lemma run_prints_its_steps_witness :
  ∃ k,
    stdout world_resume_end
    = [] ++ ["Found " +:+ Str.of_nat 1 +:+ " input images."]
      ++ []
      ++ ["Initial image count is " +:+ Str.of_nat (k - 1) +:+ "."]
      ++ ((λ i, "Saved image at " +:+ slot "out" i) <$> seq k 1).
Proof.
  destruct (run_prints_its_steps 1 resume_args world_resume world_resume_end)
    as (l & k & Hl & _ & _ & _ & Hout).
  - vm_compute. reflexivity.
  - assert (ImageSource._generate_source_list 1 (disk world_resume)
              (source_path resume_args) (recursive resume_args)
            = Some (Ret ["src/new.webp"])) as Hl' by (vm_compute; reflexivity).
    rewrite Hl' in Hl. injection Hl as <-.
    exists k. exact Hout.
Defined.

(** One file that is no image stops the run.  When a file of the source
    directory passes the filter of the extension and its bytes are no image,
    a run without recursion ends with an exception: it never ends well. *)
Theorem run_stops_at_broken_image :
  ∀ (depth : nat) (args : Namespace) (w : World) (file : DirEntry),
    recursive args = false →
    file ∈ os.entries (disk w) (source_path args) →
    last (Str.split "." (name file)) = Some "webp" →
    disk w !! path file = Some (File None) →
    ∃ e w', main (S depth) args w = Some (Exc e, w').
Proof.
  intros depth args w file Hrec Hin Hext Hbroken.
  destruct (main_total depth args w Hrec) as [[[[]|e] w'] Hrun]; [| eauto].
  exfalso.
  destruct (main_run _ _ _ _ Hrun) as (l & k & _ & Hl & _ & Hsaved & _).
  assert (path file ∈ l) as Hfile.
  { rewrite Hl. apply list_elem_of_fmap_2, list_elem_of_filter.
    split; [| done]. unfold listed, os.path_isdir. rewrite Hbroken. simpl.
    by apply bool_decide_pack. }
  apply elem_of_reverse, list_elem_of_lookup in Hfile as [i Hi].
  destruct (Hsaved i _ Hi) as (image & Himage & _). congruence.
Qed.

Lemma run_stops_at_broken_image_witness :
  ∃ e w', main 1 scenario_args world_broken = Some (Exc e, w').
Proof.
  apply (run_stops_at_broken_image 0 scenario_args world_broken
           {| name := "bad.webp"; path := "src/bad.webp" |}).
  - reflexivity.
  - apply list_elem_of_In. vm_compute. tauto.
  - reflexivity.
  - reflexivity.
Defined.

(** In destructive mode a source file is gone before its image is saved.
    When the image of the next path is read and the writer's slot turns out
    to be a directory, the loop raises [IsADirectoryError]: by then the
    source file has been removed, and no image has been written for it. *)
Theorem failed_write_loses_the_source :
  ∀ (fuel : nat) (source_list : list string) (next_path : string)
    (output_path : string) (k : nat) (w : World) (image : Image),
    disk w !! next_path = Some (File (Some image)) →
    disk w !! slot output_path k = Some Dir →
    for_image_in (S fuel)
      {| ImageSource._source_list := source_list ++ [next_path];
         ImageSource._destructive := true |}
      {| ImageWriter._output_path := output_path;
         ImageWriter._image_count := k |} w
    = Some (Exc IsADirectoryError,
            {| disk := delete next_path (disk w); stdout := stdout w |}).
Proof.
  intros fuel l p out k w image Hp Hslot.
  rewrite for_image_in_S, ImageSource_next_run. simpl.
  rewrite last_snoc, removelast_last. unfold Image_open. rewrite Hp.
  unfold mbind, Comp_bind. rewrite write_image_run, <- slot_eq. simpl.
  unfold os.check_writable.
  rewrite lookup_delete_ne; [by rewrite Hslot |].
  intros ->. congruence.
Qed.

Lemma failed_write_loses_the_source_witness :
  for_image_in 1
    {| ImageSource._source_list := [] ++ ["src/a.webp"];
       ImageSource._destructive := true |}
    {| ImageWriter._output_path := "out"; ImageWriter._image_count := 2 |}
    world_blocked
  = Some (Exc IsADirectoryError,
          {| disk := delete "src/a.webp" (disk world_blocked);
             stdout := [] |}).
Proof.
  apply (failed_write_loses_the_source 0 [] "src/a.webp" "out" 2
           world_blocked (picture 1)); reflexivity.
Defined.

(** The path of an image tells its counter.  The name is the counter in
    decimal, filled with zeros to at least three digits, followed by
    [.png]: three digits exactly for counters below 1000.  Read as a number,
    the digits give the counter back, so two counters never share a path in
    one folder. *)
Theorem image_path_tells_the_counter :
  ∀ (output_path : string) (n : nat),
    ∃ digits,
      ImageWriter._build_image_path
        {| ImageWriter._output_path := output_path;
           ImageWriter._image_count := n |}
      = Path.join output_path (digits +:+ ".png")
      ∧ Str.to_nat digits = Some n
      ∧ 3 ≤ String.length digits
      ∧ (n < 1000 → String.length digits = 3)
      ∧ (∀ m, ImageWriter._build_image_path
                {| ImageWriter._output_path := output_path;
                   ImageWriter._image_count := m |}
              = ImageWriter._build_image_path
                  {| ImageWriter._output_path := output_path;
                     ImageWriter._image_count := n |} →
              m = n).
Proof.
  intros out n. exists (Str.format_03d n).
  split; [done |]. split; [apply to_nat_format_03d |].
  pose proof (format_03d_length n) as Hlen.
  split; [lia |]. split; [| intros m; apply build_image_path_inj].
  intros Hn.
  assert (forallb (λ i, String.length (Str.of_nat i) <=? 3) (seq 0 1000) = true)
    as Hsmall by (vm_compute; reflexivity).
  rewrite forallb_forall in Hsmall.
  specialize (Hsmall n). rewrite Nat.leb_le in Hsmall.
  rewrite Hlen. apply Nat.max_l, Hsmall, in_seq. lia.
Qed.

Lemma image_path_tells_the_counter_witness :
  ∃ digits,
    ImageWriter._build_image_path
      {| ImageWriter._output_path := "out"; ImageWriter._image_count := 7 |}
    = Path.join "out" (digits +:+ ".png")
    ∧ Str.to_nat digits = Some 7
    ∧ String.length digits = 3.
Proof.
  destruct (image_path_tells_the_counter "out" 7)
    as (digits & Hpath & Hread & _ & Hlen & _).
  exists digits. split; [exact Hpath |]. split; [exact Hread |].
  apply Hlen. lia.
Defined.

(** A run that ends well leaves the images that were there alone, as far as
    their numbers are below the writer's first counter or past its last:
    with [k] the first counter and [n] images saved, the file of every
    number below [k], and of every number from [k + n] on, is as it was at
    the start.  Only the slots from [k] to [k + n - 1] are written. *)
Theorem run_keeps_the_other_images :
  ∀ (depth : nat) (args : Namespace) (w w' : World),
    main depth args w = Some (Ret tt, w') →
    ∃ (source_list : list string) (k : nat),
      ImageSource._generate_source_list depth (disk w) (source_path args)
        (recursive args) = Some (Ret source_list)
      ∧ 1 ≤ k
      ∧ os.path_exists (disk w) (slot (output_path args) k) = false
      ∧ (∀ i, 1 ≤ i < k →
           os.path_exists (disk w) (slot (output_path args) i) = true)
      ∧ (∀ i, i < k ∨ k + length source_list ≤ i →
           disk w' !! slot (output_path args) i
           = disk w !! slot (output_path args) i).
Proof.
  intros depth args w w'
    (l & k & w1 & Hscan & Hw1 & _ & Hk & Hfree & Hbelow & Hloop)%main_inv_full.
  exists l, k. split; [done |]. split; [done |]. split; [done |].
  split; [done |].
  pose proof (generate_source_list_Ret _ _ _ _ _ Hscan) as (_ & _ & Hl).
  destruct (source_list_facts _ _ _ Hl) as (Hnd & _ & Hdisj).
  destruct (for_image_in_run _ _ _ _ _ _ _ Hloop Hnd) as (_ & _ & Hother);
    [by eauto |].
  intros i Hi. rewrite Hother.
  - rewrite Hw1. destruct (os.path_exists _ _); [done |].
    rewrite lookup_insert_ne; [done |].
    intros H. symmetry in H. rewrite slot_eq in H.
    by apply build_image_path_ne_dir in H.
  - intros Hin. by apply (Hdisj _ (output_path args) i Hin).
  - intros j Hj. rewrite !slot_eq. intros H%build_image_path_inj. lia.
Qed.

Lemma run_keeps_the_other_images_witness :
  disk world_resume_end !! slot "out" 1 = disk world_resume !! slot "out" 1.
Proof.
  destruct (run_keeps_the_other_images 1 resume_args world_resume
              world_resume_end) as (l & k & _ & Hk & Hfree & _ & Hkept).
  - vm_compute. reflexivity.
  - apply Hkept. left.
    destruct (decide (k = 1)) as [-> | Hne]; [| lia].
    exfalso. revert Hfree. vm_compute. discriminate.
Defined.
